(** * A todo service with a relational store and a graph mirror

    Shallow embedding of [backend/app]: the SQLAlchemy rows of [models.py],
    the request bodies of [schemas.py], the relational operations of
    [crud.py], the Cypher statements of [neo4j_client.py] and the route
    handlers of [main.py].

    Python's exceptions are an explicit [outcome]; the two stores and the
    state of the graph driver are threaded through a state-and-exception
    monad [M].  A statement that raised keeps the writes that were committed
    before it, as the interpreter does. *)

From stdpp Require Import gmap strings list.

Local Open Scope Z_scope.

(** ** Exceptions and the monad of the handlers *)

Inductive exn : Type :=
| HTTPException (status_code : Z) (detail : string)
| IntegrityError      (* sqlalchemy.exc: a constraint of models.py is violated *)
| DataError           (* sqlalchemy.exc: negative OFFSET or LIMIT *)
| ServiceUnavailable. (* neo4j.exceptions: the statement could not be run *)

Inductive outcome (A : Type) : Type :=
| Returned (a : A)
| Raised (e : exn).
Arguments Returned {A} a.
Arguments Raised {A} e.

#[global] Instance exn_eq_dec : EqDecision exn.
Proof. solve_decision. Defined.

(** ** models.py *)

Module models.

Module User.
Record t : Type := mk {
  id : Z;
  username : string;
  email : string;
  hashed_password : string;
  is_active : option bool;
  created_at : Z
}.
End User.

(** [title] is an attribute that [setattr] can set to [None]; the column
    is [nullable=False], which the store checks when the row is flushed. *)
Module Todo.
Record t : Type := mk {
  id : Z;
  title : option string;
  description : option string;
  completed : option bool;
  priority : option string;
  created_at : Z;
  updated_at : option Z;
  due_date : option Z;
  user_id : Z
}.
End Todo.

Module Category.
Record t : Type := mk {
  id : Z;
  name : string;
  color : option string;
  user_id : Z;
  created_at : Z
}.
End Category.

End models.

#[global] Instance User_eq_dec : EqDecision models.User.t.
Proof. solve_decision. Defined.
#[global] Instance Todo_eq_dec : EqDecision models.Todo.t.
Proof. solve_decision. Defined.
#[global] Instance Category_eq_dec : EqDecision models.Category.t.
Proof. solve_decision. Defined.

(** ** schemas.py *)

Module schemas.

Module UserCreate.
Record t : Type := mk {
  username : string;
  email : string;
  password : string
}.
End UserCreate.

(** [priority] defaults to "medium" when the body leaves it out; the
    default is filled in when the body is parsed. *)
Module TodoCreate.
Record t : Type := mk {
  title : string;
  description : option string;
  priority : string;
  due_date : option Z
}.
End TodoCreate.

(** Every field of [TodoUpdate] is [Optional[...] = None].  The outer
    [option] is whether the body set the field at all (what
    [exclude_unset] looks at), the inner one is the value, which may be
    [None] when the body says [null]. *)
Module TodoUpdate.
Record t : Type := mk {
  title : option (option string);
  description : option (option string);
  completed : option (option bool);
  priority : option (option string);
  due_date : option (option Z)
}.

(** One entry of [todo_update.dict(exclude_unset=True)]. *)
Inductive item : Type :=
| set_title (v : option string)
| set_description (v : option string)
| set_completed (v : option bool)
| set_priority (v : option string)
| set_due_date (v : option Z).

Definition entry {A} (f : A → item) (o : option A) : list item :=
  match o with Some v => [f v] | None => [] end.

(** The fields that were set, in the order the class declares them. *)
Definition dict_exclude_unset (u : t) : list item :=
  entry set_title (title u) ++ entry set_description (description u) ++
  entry set_completed (completed u) ++ entry set_priority (priority u) ++
  entry set_due_date (due_date u).
End TodoUpdate.

Module CategoryCreate.
Record t : Type := mk {
  name : string;
  color : string
}.
End CategoryCreate.

End schemas.

(** ** The relational store *)

(** The three tables in insertion order, the sequences behind the integer
    primary keys, and the server clock behind [func.now()]. *)
Record Database : Type := mkDatabase {
  users : list models.User.t;
  todos : list models.Todo.t;
  categories : list models.Category.t;
  users_id_seq : Z;
  todos_id_seq : Z;
  categories_id_seq : Z;
  clock : Z
}.

(** ** The graph store *)

Module graph.

Inductive Label : Type := User | Todo | Category.
Inductive RelType : Type := OWNS | CREATED | BELONGS_TO.
Inductive Value : Type := VInt (z : Z) | VStr (s : string).

#[global] Instance Label_eq_dec : EqDecision Label.
Proof. solve_decision. Defined.
#[global] Instance RelType_eq_dec : EqDecision RelType.
Proof. solve_decision. Defined.
#[global] Instance Value_eq_dec : EqDecision Value.
Proof. solve_decision. Defined.

(** A node has the engine's own identity [nid], one label and a property
    map; the entity id the service merges on is the property "id". *)
Record Node : Type := mkNode {
  nid : nat;
  label : Label;
  props : gmap string Value
}.

Record Rel : Type := mkRel {
  src : nat;
  rtype : RelType;
  dst : nat
}.

#[global] Instance Rel_eq_dec : EqDecision Rel.
Proof. solve_decision. Defined.

Record Graph : Type := mkGraph {
  nodes : list Node;
  rels : list Rel;
  next_nid : nat
}.

Definition empty : Graph := mkGraph [] [] 0%nat.

(** The pattern [(x:L {id: $k})]. *)
Definition has_key (l : Label) (k : Z) (n : Node) : Prop :=
  label n = l ∧ props n !! "id" = Some (VInt k).

#[global] Instance has_key_dec l k n : Decision (has_key l k n).
Proof. unfold has_key. apply _. Defined.

(** [MATCH (x:L {id: $k})]: one row per node that fits. *)
Definition match_nodes (l : Label) (k : Z) (g : Graph) : list Node :=
  filter (has_key l k) (nodes g).

(** [MERGE (x:L {id: $k})]: the rows of the MATCH, or one new node when
    there is none. *)
Definition merge_node (l : Label) (k : Z) (g : Graph) : Graph * list Node :=
  match match_nodes l k g with
  | [] =>
      let n := mkNode (next_nid g) l {[ "id" := VInt k ]} in
      (mkGraph (nodes g ++ [n]) (rels g) (S (next_nid g)), [n])
  | ms => (g, ms)
  end.

(** A statement parameter: a Python [str], or [None], which Cypher reads
  as null. *)
Definition param (s : option string) : option Value := VStr <$> s.

(** Setting a property to null removes it. *)
Definition set_node (key : string) (v : option Value) (n : Node) : Node :=
  mkNode (nid n) (label n)
  (match v with Some v => <[ key := v ]> (props n) | None => delete key (props n) end).

(** [SET x.key = v] for the node bound to [x]. *)
Definition set_prop (x : nat) (key : string) (v : option Value) (g : Graph) : Graph :=
  mkGraph
    ((λ n, if decide (nid n = x) then set_node key v n else n) <$> nodes g)
    (rels g) (next_nid g).

(** [MERGE (a)-[:T]->(b)] on bound nodes: nothing when the relationship
    is there, one new relationship otherwise. *)
Definition merge_rel (a : nat) (t : RelType) (b : nat) (g : Graph) : Graph :=
  if decide (mkRel a t b ∈ rels g) then g
  else mkGraph (nodes g) (rels g ++ [mkRel a t b]) (next_nid g).

(** The node at the far end of a relationship, with the label the pattern
    asks for. *)
Definition node_at (l : Label) (x : nat) (g : Graph) : list Node :=
  filter (λ n, nid n = x ∧ label n = l) (nodes g).

(** [(a)-[:T]->(b:L)] from a bound [a]. *)
Definition out_nodes (a : Node) (t : RelType) (l : Label) (g : Graph) : list Node :=
  r ← filter (λ r, src r = nid a ∧ rtype r = t) (rels g);
  node_at l (dst r) g.

(** [(b)<-[:T]-(a:L)] from a bound [b]. *)
Definition in_nodes (b : Node) (t : RelType) (l : Label) (g : Graph) : list Node :=
  r ← filter (λ r, dst r = nid b ∧ rtype r = t) (rels g);
  node_at l (src r) g.

End graph.


#[global] Instance Node_eq_dec : EqDecision graph.Node.
Proof. solve_decision. Defined.

(** ** The world of a request *)

(** The relational store, the graph store, and whether the graph driver can
    reach its server.  The service never changes [neo4j_up]. *)
Record World : Type := mkWorld {
  db : Database;
  neo4j : graph.Graph;
  neo4j_up : bool
}.

Definition M (A : Type) : Type := World → outcome A * World.

#[global] Instance M_ret : MRet M := λ A a w, (Returned a, w).

#[global] Instance M_bind : MBind M := λ A B f m w,
  match m w with
  | (Returned a, w') => f a w'
  | (Raised e, w') => (Raised e, w')
  end.

#[global] Instance M_fmap : FMap M := λ A B f m w,
  match m w with
  | (Returned a, w') => (Returned (f a), w')
  | (Raised e, w') => (Raised e, w')
  end.

Definition raise {A} (e : exn) : M A := λ w, (Raised e, w).

(** ** auth.py (not among the sources) *)

Module auth.
(** [auth.get_password_hash]: the digest [crud.create_user] stores.  Its
    body is not part of the sources; it is left abstract. *)
Class Hasher : Type := get_password_hash : string → string.
End auth.

(** ** neo4j_client.py *)

(** The six Cypher statements, as functions of the graph. *)
Module cypher.
Import graph.

(** MERGE (u:User {id: $user_id}) SET u.username = $username, u.email = $email *)
Definition create_user_node (user_id : Z) (username email : string) (g : Graph) : Graph :=
  let '(g1, us) := merge_node User user_id g in
  foldl (λ g u, set_prop (nid u) "email" (Some (VStr email))
                  (set_prop (nid u) "username" (Some (VStr username)) g)) g1 us.

(** MERGE (t:Todo {id: $todo_id}) SET t.title = $title WITH t
    MATCH (u:User {id: $user_id}) MERGE (u)-[:OWNS]->(t) *)
Definition create_todo_node (todo_id : Z) (title : option string) (user_id : Z) (g : Graph) : Graph :=
  let '(g1, ts) := merge_node Todo todo_id g in
  let g2 := foldl (λ g t, set_prop (nid t) "title" (param title) g) g1 ts in
  let rows := t ← ts; u ← match_nodes User user_id g2; [(t, u)] in
  foldl (λ g '(t, u), merge_rel (nid u) OWNS (nid t) g) g2 rows.

(** MERGE (c:Category {id: $category_id}) SET c.name = $name WITH c
    MATCH (u:User {id: $user_id}) MERGE (u)-[:CREATED]->(c) *)
Definition create_category_node (category_id : Z) (name : string) (user_id : Z) (g : Graph) : Graph :=
  let '(g1, cs) := merge_node Category category_id g in
  let g2 := foldl (λ g c, set_prop (nid c) "name" (Some (VStr name)) g) g1 cs in
  let rows := c ← cs; u ← match_nodes User user_id g2; [(c, u)] in
  foldl (λ g '(c, u), merge_rel (nid u) CREATED (nid c) g) g2 rows.

(** MATCH (t:Todo {id: $todo_id}), (c:Category {id: $category_id})
    MERGE (t)-[:BELONGS_TO]->(c) *)
Definition link_todo_to_category (todo_id category_id : Z) (g : Graph) : Graph :=
  let rows := t ← match_nodes Todo todo_id g; c ← match_nodes Category category_id g; [(t, c)] in
  foldl (λ g '(t, c), merge_rel (nid t) BELONGS_TO (nid c) g) g rows.

(** other_user.id <> $user_id: a missing property is null and the row is
    dropped. *)
Definition id_differs (n : Node) (user_id : Z) : Prop :=
  ∃ v, props n !! "id" = Some v ∧ v ≠ VInt user_id.

#[global] Instance id_differs_dec n user_id : Decision (id_differs n user_id).
Proof.
  unfold id_differs. destruct (props n !! "id") as [v|].
  - destruct (decide (v = VInt user_id)) as [->|Hne].
    + right. intros (v' & Hv & Hne). by simplify_eq.
    + left. eauto.
  - right. by intros (v' & Hv & _).
Defined.

(** MATCH (u:User {id: $user_id})-[:OWNS]->(t:Todo)-[:BELONGS_TO]->(c:Category)
    MATCH (c)<-[:BELONGS_TO]-(other_todo:Todo)<-[:OWNS]-(other_user:User)
    WHERE other_user.id <> $user_id
    The rows before RETURN, as (other_todo, c).  The engine is free in the
    order of the rows; the model takes them in the order of the lists. *)
Definition recommendation_rows (user_id : Z) (g : Graph) : list (Node * Node) :=
  u ← match_nodes User user_id g;
  t ← out_nodes u OWNS Todo g;
  c ← out_nodes t BELONGS_TO Category g;
  other_todo ← in_nodes c BELONGS_TO Todo g;
  other_user ← in_nodes other_todo OWNS User g;
  if decide (id_differs other_user user_id) then [(other_todo, c)] else [].

(** MATCH (u:User {id: $user_id})-[:OWNS]->(t:Todo)
    OPTIONAL MATCH (t)-[:BELONGS_TO]->(c:Category) RETURN u, t, c
    No route calls it. *)
Definition get_user_todo_graph (user_id : Z) (g : Graph)
  : list (Node * Node * option Node) :=
  u ← match_nodes User user_id g;
  t ← out_nodes u OWNS Todo g;
  match out_nodes t BELONGS_TO Category g with
  | [] => [(u, t, None)]
  | cs => (λ c, (u, t, Some c)) <$> cs
  end.

(** RETURN other_todo.title as recommendation, c.name as category LIMIT 5 *)
Definition get_todo_recommendations (user_id : Z) (g : Graph)
  : list (option Value * option Value) :=
  take 5 ((λ '(other_todo, c), (props other_todo !! "title", props c !! "name"))
            <$> recommendation_rows user_id g).

End cypher.

Module neo4j_client.
Import graph.

(** [with self.driver.session() as session: session.run(...)]: the
    statement runs in a transaction of its own, so it takes effect as a
    whole or raises and leaves the graph as it was. *)
Definition write (statement : Graph → Graph) : M () := λ w,
  if neo4j_up w
  then (Returned (), mkWorld (db w) (statement (neo4j w)) (neo4j_up w))
  else (Raised ServiceUnavailable, w).

Definition read {A} (statement : Graph → A) : M A := λ w,
  if neo4j_up w then (Returned (statement (neo4j w)), w)
  else (Raised ServiceUnavailable, w).

Definition create_user_node (user_id : Z) (username email : string) : M () :=
  write (cypher.create_user_node user_id username email).

Definition create_todo_node (todo_id : Z) (title : option string) (user_id : Z) : M () :=
  write (cypher.create_todo_node todo_id title user_id).

Definition create_category_node (category_id : Z) (name : string) (user_id : Z) : M () :=
  write (cypher.create_category_node category_id name user_id).

Definition link_todo_to_category (todo_id category_id : Z) : M () :=
  write (cypher.link_todo_to_category todo_id category_id).

Definition get_user_todo_graph (user_id : Z) : M (list (Node * Node * option Node)) :=
  read (cypher.get_user_todo_graph user_id).

(** One dict per record, with the keys "recommendation" and "category". *)
Record Recommendation : Type := mkRecommendation {
  recommendation : option Value;
  category : option Value
}.

Definition get_todo_recommendations (user_id : Z) : M (list Recommendation) :=
  read (λ g, (λ '(r, c), mkRecommendation r c) <$> cypher.get_todo_recommendations user_id g).

End neo4j_client.


(** ** crud.py *)

Module crud.
Import models.

(** [db.query(...).filter(...)]: the rows of a table that pass, in the order
    of the table; [.first()] is [head]; [.all()] is the list. *)
Definition query {A} (table : Database → list A) (P : A → Prop)
    `{!∀ x, Decision (P x)} : M (list A) := λ w,
  (Returned (filter P (table (db w))), w).

Definition get_user (user_id : Z) : M (option User.t) :=
  head <$> query users (λ u, User.id u = user_id).

Definition get_user_by_username (username : string) : M (option User.t) :=
  head <$> query users (λ u, User.username u = username).

Definition get_user_by_email (email : string) : M (option User.t) :=
  head <$> query users (λ u, User.email u = email).

(** [db.add(db_user); db.commit(); db.refresh(db_user)]: the INSERT.  The
    columns [username] and [email] are [unique=True]; the id comes from the
    sequence, [is_active] from its default, [created_at] from the server
    clock. *)
Definition insert_user (username email hashed_password : string) : M User.t := λ w,
  let d := db w in
  if decide (Exists (λ u, User.username u = username ∨ User.email u = email) (users d))
  then (Raised IntegrityError, w)
  else
    let row := User.mk (users_id_seq d) username email hashed_password (Some true) (clock d) in
    (Returned row,
     mkWorld (mkDatabase (users d ++ [row]) (todos d) (categories d)
                (users_id_seq d + 1) (todos_id_seq d) (categories_id_seq d) (clock d))
       (neo4j w) (neo4j_up w)).

Definition create_user `{!auth.Hasher} (user : schemas.UserCreate.t) : M User.t :=
  let hashed_password := auth.get_password_hash (schemas.UserCreate.password user) in
  db_user ← insert_user (schemas.UserCreate.username user)
              (schemas.UserCreate.email user) hashed_password;
  (* Create user node in Neo4j *)
  _ ← neo4j_client.create_user_node (User.id db_user) (User.username db_user) (User.email db_user);
  mret db_user.

(** PostgreSQL (the store main.py names) refuses a negative OFFSET or
    LIMIT. *)
Definition get_todos (user_id skip limit : Z) : M (list Todo.t) :=
  rows ← query todos (λ t, Todo.user_id t = user_id);
  if decide (skip < 0 ∨ limit < 0) then raise DataError
  else mret (take (Z.to_nat limit) (drop (Z.to_nat skip) rows)).

Definition get_todo (todo_id user_id : Z) : M (option Todo.t) :=
  head <$> query todos (λ t, Todo.id t = todo_id ∧ Todo.user_id t = user_id).

(** The INSERT into [todos]: [user_id] is a foreign key to [users.id] and
    [title] is [nullable=False]; [completed] takes its default, [updated_at]
    stays NULL until the first UPDATE. *)
Definition insert_todo (title : option string) (description : option string)
    (priority : option string) (due_date : option Z) (user_id : Z) : M Todo.t := λ w,
  let d := db w in
  if decide (title = None ∨ ¬ Exists (λ u, User.id u = user_id) (users d))
  then (Raised IntegrityError, w)
  else
    let row := Todo.mk (todos_id_seq d) title description (Some false) priority
                 (clock d) None due_date user_id in
    (Returned row,
     mkWorld (mkDatabase (users d) (todos d ++ [row]) (categories d)
                (users_id_seq d) (todos_id_seq d + 1) (categories_id_seq d) (clock d))
       (neo4j w) (neo4j_up w)).

Definition create_todo (todo : schemas.TodoCreate.t) (user_id : Z) : M Todo.t :=
  db_todo ← insert_todo (Some (schemas.TodoCreate.title todo))
              (schemas.TodoCreate.description todo)
              (Some (schemas.TodoCreate.priority todo))
              (schemas.TodoCreate.due_date todo) user_id;
  (* Create todo node in Neo4j *)
  _ ← neo4j_client.create_todo_node (Todo.id db_todo) (Todo.title db_todo) user_id;
  mret db_todo.

(** [setattr(db_todo, field, value)] for one entry of the update. *)
Definition setattr (t : Todo.t) (i : schemas.TodoUpdate.item) : Todo.t :=
  match i with
  | schemas.TodoUpdate.set_title v =>
      Todo.mk (Todo.id t) v (Todo.description t) (Todo.completed t) (Todo.priority t)
        (Todo.created_at t) (Todo.updated_at t) (Todo.due_date t) (Todo.user_id t)
  | schemas.TodoUpdate.set_description v =>
      Todo.mk (Todo.id t) (Todo.title t) v (Todo.completed t) (Todo.priority t)
        (Todo.created_at t) (Todo.updated_at t) (Todo.due_date t) (Todo.user_id t)
  | schemas.TodoUpdate.set_completed v =>
      Todo.mk (Todo.id t) (Todo.title t) (Todo.description t) v (Todo.priority t)
        (Todo.created_at t) (Todo.updated_at t) (Todo.due_date t) (Todo.user_id t)
  | schemas.TodoUpdate.set_priority v =>
      Todo.mk (Todo.id t) (Todo.title t) (Todo.description t) (Todo.completed t) v
        (Todo.created_at t) (Todo.updated_at t) (Todo.due_date t) (Todo.user_id t)
  | schemas.TodoUpdate.set_due_date v =>
      Todo.mk (Todo.id t) (Todo.title t) (Todo.description t) (Todo.completed t)
        (Todo.priority t) (Todo.created_at t) (Todo.updated_at t) v (Todo.user_id t)
  end.

Definition touch (now : Z) (t : Todo.t) : Todo.t :=
  Todo.mk (Todo.id t) (Todo.title t) (Todo.description t) (Todo.completed t)
    (Todo.priority t) (Todo.created_at t) (Some now) (Todo.due_date t) (Todo.user_id t).

(** [db.commit(); db.refresh(db_todo)] after the attributes of the loaded
    row [old] were set to those of [new]: no UPDATE is sent when nothing
    differs; otherwise the row with this primary key is rewritten,
    [updated_at] takes the clock ([onupdate=func.now()]), and a NULL title
    is refused. *)
Definition flush_todo (old new : Todo.t) : M Todo.t := λ w,
  let d := db w in
  if decide (new = old) then (Returned old, w)
  else if decide (Todo.title new = None) then (Raised IntegrityError, w)
  else
    let row := touch (clock d) new in
    (Returned row,
     mkWorld (mkDatabase (users d)
                ((λ t, if decide (Todo.id t = Todo.id old) then row else t) <$> todos d)
                (categories d)
                (users_id_seq d) (todos_id_seq d) (categories_id_seq d) (clock d))
       (neo4j w) (neo4j_up w)).

Definition update_todo (todo_id : Z) (todo_update : schemas.TodoUpdate.t) (user_id : Z)
    : M (option Todo.t) :=
  db_todo ← get_todo todo_id user_id;
  match db_todo with
  | Some db_todo =>
      let update_data := schemas.TodoUpdate.dict_exclude_unset todo_update in
      Some <$> flush_todo db_todo (foldl setattr db_todo update_data)
  | None => mret None
  end.

(** [db.delete(db_todo); db.commit()]: the DELETE by primary key. *)
Definition delete_row (old : Todo.t) : M () := λ w,
  let d := db w in
  (Returned (),
   mkWorld (mkDatabase (users d) (filter (λ t, Todo.id t ≠ Todo.id old) (todos d))
              (categories d)
              (users_id_seq d) (todos_id_seq d) (categories_id_seq d) (clock d))
     (neo4j w) (neo4j_up w)).

Definition delete_todo (todo_id user_id : Z) : M (option Todo.t) :=
  db_todo ← get_todo todo_id user_id;
  match db_todo with
  | Some db_todo => _ ← delete_row db_todo; mret (Some db_todo)
  | None => mret None
  end.

Definition get_categories (user_id : Z) : M (list Category.t) :=
  query categories (λ c, Category.user_id c = user_id).

(** The INSERT into [categories]; [user_id] is a foreign key to
    [users.id]. *)
Definition insert_category (name : string) (color : option string) (user_id : Z)
    : M Category.t := λ w,
  let d := db w in
  if decide (Exists (λ u, User.id u = user_id) (users d))
  then
    let row := Category.mk (categories_id_seq d) name color user_id (clock d) in
    (Returned row,
     mkWorld (mkDatabase (users d) (todos d) (categories d ++ [row])
                (users_id_seq d) (todos_id_seq d) (categories_id_seq d + 1) (clock d))
       (neo4j w) (neo4j_up w))
  else (Raised IntegrityError, w).

Definition create_category (category : schemas.CategoryCreate.t) (user_id : Z)
    : M Category.t :=
  db_category ← insert_category (schemas.CategoryCreate.name category)
                  (Some (schemas.CategoryCreate.color category)) user_id;
  (* Create category node in Neo4j *)
  _ ← neo4j_client.create_category_node (Category.id db_category)
        (Category.name db_category) user_id;
  mret db_category.

End crud.


(** ** main.py *)

(** The route handlers.  [current_user] is what the dependency
    [auth.get_current_active_user] hands to the handler.  The route
    [/token] only reads and lives in [auth.py]; it is not modelled. *)
Module main.
Import models.

Definition register `{!auth.Hasher} (user : schemas.UserCreate.t) : M User.t :=
  db_user ← crud.get_user_by_username (schemas.UserCreate.username user);
  match db_user with
  | Some _ => raise (HTTPException 400 "Username already registered")
  | None =>
      db_user ← crud.get_user_by_email (schemas.UserCreate.email user);
      match db_user with
      | Some _ => raise (HTTPException 400 "Email already registered")
      | None => crud.create_user user
      end
  end.

Definition read_users_me (current_user : User.t) : M User.t := mret current_user.

Definition create_todo (todo : schemas.TodoCreate.t) (current_user : User.t) : M Todo.t :=
  crud.create_todo todo (User.id current_user).

Definition read_todos (skip limit : Z) (current_user : User.t) : M (list Todo.t) :=
  todos ← crud.get_todos (User.id current_user) skip limit;
  mret todos.

Definition read_todo (todo_id : Z) (current_user : User.t) : M Todo.t :=
  db_todo ← crud.get_todo todo_id (User.id current_user);
  match db_todo with
  | None => raise (HTTPException 404 "Todo not found")
  | Some db_todo => mret db_todo
  end.

Definition update_todo (todo_id : Z) (todo_update : schemas.TodoUpdate.t)
    (current_user : User.t) : M Todo.t :=
  db_todo ← crud.update_todo todo_id todo_update (User.id current_user);
  match db_todo with
  | None => raise (HTTPException 404 "Todo not found")
  | Some db_todo => mret db_todo
  end.

(** The body of the answer is the dict with the one key "message". *)
Definition delete_todo (todo_id : Z) (current_user : User.t) : M string :=
  db_todo ← crud.delete_todo todo_id (User.id current_user);
  match db_todo with
  | None => raise (HTTPException 404 "Todo not found")
  | Some _ => mret "Todo deleted successfully"
  end.

Definition create_category (category : schemas.CategoryCreate.t) (current_user : User.t)
    : M Category.t :=
  crud.create_category category (User.id current_user).

Definition read_categories (current_user : User.t) : M (list Category.t) :=
  crud.get_categories (User.id current_user).

(** The body of the answer is the dict with the one key "recommendations". *)
Definition get_recommendations (current_user : User.t)
    : M (list neo4j_client.Recommendation) :=
  recommendations ← neo4j_client.get_todo_recommendations (User.id current_user);
  mret recommendations.

End main.

(** ** The service as a transition system *)

Inductive request : Type :=
| POST_register (user : schemas.UserCreate.t)
| GET_users_me (current_user : models.User.t)
| POST_todos (todo : schemas.TodoCreate.t) (current_user : models.User.t)
| GET_todos (skip limit : Z) (current_user : models.User.t)
| GET_todo (todo_id : Z) (current_user : models.User.t)
| PUT_todo (todo_id : Z) (todo_update : schemas.TodoUpdate.t) (current_user : models.User.t)
| DELETE_todo (todo_id : Z) (current_user : models.User.t)
| POST_categories (category : schemas.CategoryCreate.t) (current_user : models.User.t)
| GET_categories (current_user : models.User.t)
| GET_recommendations (current_user : models.User.t).

(** The world a request leaves behind, whatever it answered. *)
Definition serve `{!auth.Hasher} (r : request) (w : World) : World :=
  match r with
  | POST_register user => (main.register user w).2
  | GET_users_me u => (main.read_users_me u w).2
  | POST_todos todo u => (main.create_todo todo u w).2
  | GET_todos skip limit u => (main.read_todos skip limit u w).2
  | GET_todo todo_id u => (main.read_todo todo_id u w).2
  | PUT_todo todo_id todo_update u => (main.update_todo todo_id todo_update u w).2
  | DELETE_todo todo_id u => (main.delete_todo todo_id u w).2
  | POST_categories category u => (main.create_category category u w).2
  | GET_categories u => (main.read_categories u w).2
  | GET_recommendations u => (main.get_recommendations u w).2
  end.

(** What happens around the service: the server clock moves on, the graph
    server goes away or comes back. *)
Definition set_clock (now : Z) (w : World) : World :=
  let d := db w in
  mkWorld (mkDatabase (users d) (todos d) (categories d)
             (users_id_seq d) (todos_id_seq d) (categories_id_seq d) now)
    (neo4j w) (neo4j_up w).

Definition set_neo4j_up (up : bool) (w : World) : World :=
  mkWorld (db w) (neo4j w) up.

(** Both stores empty, the sequences at 1. *)
Definition initial (now : Z) (up : bool) : World :=
  mkWorld (mkDatabase [] [] [] 1 1 1 now) graph.empty up.

(** What the service's own operations, the clock and the graph server can
    make of a world. *)
Inductive evolves `{!auth.Hasher} : World → World → Prop :=
| evolves_refl w : evolves w w
| evolves_serve r w w' : evolves w w' → evolves w (serve r w')
| evolves_clock now w w' : evolves w w' → clock (db w') ≤ now → evolves w (set_clock now w')
| evolves_neo4j up w w' : evolves w w' → evolves w (set_neo4j_up up w').

(** The worlds that come from two empty stores. *)
Definition reachable `{!auth.Hasher} (w : World) : Prop :=
  ∃ now up, evolves (initial now up) w.

(** A property of the world that a computation keeps, whatever it
    answers. *)
Definition invariant {A} (P : World → Prop) (m : M A) : Prop :=
  ∀ w, P w → P (m w).2.

(** ** Invariants *)

(** No relationship of the graph is a BELONGS_TO. *)
Definition no_belongs_to (g : graph.Graph) : Prop :=
  Forall (λ r, graph.rtype r ≠ graph.BELONGS_TO) (graph.rels g).

(** Node [a] and node [b] of the graph are joined by a relationship of
    type [t] from [a] to [b]. *)
Definition related (g : graph.Graph) (a : graph.Node) (t : graph.RelType) (b : graph.Node)
    : Prop :=
  a ∈ graph.nodes g ∧ b ∈ graph.nodes g ∧
  graph.mkRel (graph.nid a) t (graph.nid b) ∈ graph.rels g.

Definition owns (g : graph.Graph) (u t : graph.Node) : Prop :=
  graph.label u = graph.User ∧ graph.label t = graph.Todo ∧ related g u graph.OWNS t.

Definition belongs_to (g : graph.Graph) (t c : graph.Node) : Prop :=
  graph.label t = graph.Todo ∧ graph.label c = graph.Category ∧
  related g t graph.BELONGS_TO c.

(** The user with id [user_id] owns a todo in category [c]. *)
Definition has_todo_in (g : graph.Graph) (user_id : Z) (c : graph.Node) : Prop :=
  ∃ u t, graph.has_key graph.User user_id u ∧ owns g u t ∧ belongs_to g t c.

(** [other_todo] belongs to [c] and is owned by a user whose id is not
    [user_id]. *)
Definition shared_by_other (g : graph.Graph) (user_id : Z) (other_todo c : graph.Node)
    : Prop :=
  ∃ other_user, belongs_to g other_todo c ∧ owns g other_user other_todo ∧
                cypher.id_differs other_user user_id.

(** The column [todos.title] is [nullable=False]: no stored row has a NULL
    title. *)
Definition title_not_null (d : Database) : Prop :=
  Forall (λ t, is_Some (models.Todo.title t)) (todos d).

(** The value a field has after an update: the one the body set, or the
    prior one when the body left the field out. *)
Definition updated {A} (prior : A) (field : option A) : A :=
  match field with Some v => v | None => prior end.

(** The primary key of [todos]: no id twice, every id below the sequence. *)
Definition todos_pk (d : Database) : Prop :=
  NoDup (models.Todo.id <$> todos d) ∧
  Forall (λ t, models.Todo.id t < todos_id_seq d) (todos d).

(** The table [todos] as the schema constrains it, with the ids in [K]
    used up: handed out by the sequence and on no stored row. *)
Definition todos_ok (K : Z → Prop) (w : World) : Prop :=
  todos_pk (db w) ∧ title_not_null (db w) ∧
  ∀ k, K k → k < todos_id_seq (db w) ∧ Forall (λ t, models.Todo.id t ≠ k) (todos (db w)).

(** The key the graph is merged on: at most one node per label and id. *)
Definition merge_key (g : graph.Graph) : Prop :=
  ∀ l k, (length (graph.match_nodes l k g) ≤ 1)%nat.

(** The table [users] as models.py constrains it: the primary key, and
    [unique=True] on [username] and on [email]. *)
Definition users_ok (d : Database) : Prop :=
  NoDup (models.User.id <$> users d) ∧
  Forall (λ u, models.User.id u < users_id_seq d) (users d) ∧
  NoDup (models.User.username <$> users d) ∧
  NoDup (models.User.email <$> users d).

(** The primary key of [categories]. *)
Definition categories_pk (d : Database) : Prop :=
  NoDup (models.Category.id <$> categories d) ∧
  Forall (λ c, models.Category.id c < categories_id_seq d) (categories d).

(** [ForeignKey("users.id")] on [todos.user_id] and on
    [categories.user_id]: the owner of every row is a stored user. *)
Definition foreign_keys (d : Database) : Prop :=
  Forall (λ t, Exists (λ u, models.User.id u = models.Todo.user_id t) (users d)) (todos d) ∧
  Forall (λ c, Exists (λ u, models.User.id u = models.Category.user_id c) (users d))
    (categories d).

(** Users, categories and the foreign keys. *)
Definition owners_ok (d : Database) : Prop :=
  users_ok d ∧ categories_pk d ∧ foreign_keys d.

(** The whole relational schema. *)
Definition schema_ok (d : Database) : Prop :=
  users_ok d ∧ todos_pk d ∧ title_not_null d ∧ categories_pk d ∧ foreign_keys d.

(** The shape [create_todo_node] and [create_category_node] share:
    MERGE (x:l {id: $k}) SET x.key = $v WITH x
    MATCH (u:User {id: $user_id}) MERGE (u)-[:ty]->(x) *)
Definition merge_owned (l : graph.Label) (key : string) (ty : graph.RelType) (k : Z)
    (v : option graph.Value) (user_id : Z) (g : graph.Graph) : graph.Graph :=
  let '(g1, xs) := graph.merge_node l k g in
  let g2 := foldl (λ g x, graph.set_prop (graph.nid x) key v g) g1 xs in
  let rows := x ← xs; u ← graph.match_nodes graph.User user_id g2; [(x, u)] in
  foldl (λ g '(x, u), graph.merge_rel (graph.nid u) ty (graph.nid x) g) g2 rows.

(** The labels a relationship of each type joins in the statements of
    neo4j_client.py: (start, end). *)
Definition endpoints (t : graph.RelType) : graph.Label * graph.Label :=
  match t with
  | graph.OWNS => (graph.User, graph.Todo)
  | graph.CREATED => (graph.User, graph.Category)
  | graph.BELONGS_TO => (graph.Todo, graph.Category)
  end.

(** The identities and labels of the nodes. *)
Definition shape (g : graph.Graph) : list (nat * graph.Label) :=
  (λ n, (graph.nid n, graph.label n)) <$> graph.nodes g.

(** A relationship that starts and ends at nodes of the graph, with the
    labels of its type. *)
Definition rel_ok (g : graph.Graph) (r : graph.Rel) : Prop :=
  (graph.src r, (endpoints (graph.rtype r)).1) ∈ shape g ∧
  (graph.dst r, (endpoints (graph.rtype r)).2) ∈ shape g.

(** A graph as the engine keeps it and the service fills it: no identity
    twice, every identity handed out by the engine, no dangling or
    mistyped relationship, no relationship twice. *)
Definition graph_ok (g : graph.Graph) : Prop :=
  NoDup (graph.nid <$> graph.nodes g) ∧
  Forall (λ n, (graph.nid n < graph.next_nid g)%nat) (graph.nodes g) ∧
  Forall (rel_ok g) (graph.rels g) ∧
  NoDup (graph.rels g).

(** What a node of the mirror says, against the relational store: a User
    node carries the id, username and email of a stored user, a Category
    node the id and name of a stored category, a Todo node an id that the
    sequence of [todos] has handed out. *)
Definition node_agrees (d : Database) (n : graph.Node) : Prop :=
  match graph.label n with
  | graph.User =>
      ∃ u, u ∈ users d ∧
           graph.props n !! "id" = Some (graph.VInt (models.User.id u)) ∧
           graph.props n !! "username" = Some (graph.VStr (models.User.username u)) ∧
           graph.props n !! "email" = Some (graph.VStr (models.User.email u))
  | graph.Category =>
      ∃ c, c ∈ categories d ∧
           graph.props n !! "id" = Some (graph.VInt (models.Category.id c)) ∧
           graph.props n !! "name" = Some (graph.VStr (models.Category.name c))
  | graph.Todo =>
      ∃ k, graph.props n !! "id" = Some (graph.VInt k) ∧ k < todos_id_seq d
  end.

Definition mirror_ok (w : World) : Prop :=
  graph_ok (neo4j w) ∧ Forall (node_agrees (db w)) (graph.nodes (neo4j w)).

(** The nodes of [g'] are the nodes of [g], of which those with an
    identity in [X] may have been rewritten, keeping identity, label and
    the property "id". *)
Definition touched (X : nat → Prop) (g g' : graph.Graph) : Prop :=
  ∀ n', n' ∈ graph.nodes g' →
    ∃ n, n ∈ graph.nodes g ∧ graph.nid n' = graph.nid n ∧
         graph.label n' = graph.label n ∧
         graph.props n' !! "id" = graph.props n !! "id" ∧
         (n' = n ∨ X (graph.nid n)).

(** ** Data for the examples *)

Module example.

Definition hasher : auth.Hasher := λ password, "digest of " +:+ password.

Definition alice : schemas.UserCreate.t :=
  schemas.UserCreate.mk "alice" "alice@example.com" "wonderland".
Definition bob : schemas.UserCreate.t :=
  schemas.UserCreate.mk "bob" "bob@example.com" "builder".


Definition alice_row : models.User.t :=
  models.User.mk 1 "alice" "alice@example.com" "digest of wonderland" (Some true) 0.
Definition bob_row : models.User.t :=
  models.User.mk 2 "bob" "bob@example.com" "digest of builder" (Some true) 0.

Definition write_report : schemas.TodoCreate.t :=
  schemas.TodoCreate.mk "Write report" None "medium" None.
Definition ship_release : schemas.TodoCreate.t :=
  schemas.TodoCreate.mk "Ship release" (Some "v2") "high" (Some 1000).
Definition work : schemas.CategoryCreate.t :=
  schemas.CategoryCreate.mk "Work" "#3B82F6".

Definition alice_todo : models.Todo.t :=
  models.Todo.mk 1 (Some "Write report") None (Some false) (Some "medium") 0 None None 1.
Definition bob_todo : models.Todo.t :=
  models.Todo.mk 2 (Some "Ship release") (Some "v2") (Some false) (Some "high") 0 None
    (Some 1000) 2.

(** The body [{"completed": true}]. *)
Definition only_completed : schemas.TodoUpdate.t :=
  schemas.TodoUpdate.mk None None (Some (Some true)) None None.


(** A body that sets every field. *)
Definition all_fields : schemas.TodoUpdate.t :=
  schemas.TodoUpdate.mk (Some (Some "Ship 2.0")) (Some None) (Some (Some true))
    (Some (Some "low")) (Some (Some 2000)).

(** alice and bob registered while the graph server was up. *)
Definition two_users : World :=
  @serve hasher (POST_register bob) (@serve hasher (POST_register alice) (initial 0 true)).

(** alice registered, then the graph server went away. *)
Definition graph_down : World :=
  set_neo4j_up false (@serve hasher (POST_register alice) (initial 0 true)).


(** Both users own one todo each: alice todo 1, bob todo 2. *)
Definition two_todos : World :=
  @serve hasher (POST_todos ship_release bob_row)
    (@serve hasher (POST_todos write_report alice_row) two_users).

(** The Todo node of bob's todo and the Category node of "Work" in
    [linked]. *)
Definition ship_node : graph.Node :=
  graph.mkNode 3 graph.Todo
    (<[ "title" := graph.VStr "Ship release" ]> {[ "id" := graph.VInt 2 ]}).
Definition work_node : graph.Node :=
  graph.mkNode 4 graph.Category
    (<[ "name" := graph.VStr "Work" ]> {[ "id" := graph.VInt 1 ]}).

(** The graph of [two_todos] after a category was mirrored and both todos
    were linked to it with [link_todo_to_category]. *)
Definition linked : graph.Graph :=
  cypher.link_todo_to_category 2 1
    (cypher.link_todo_to_category 1 1
       (cypher.create_category_node 1 "Work" 1 (neo4j two_todos))).

End example.

(** ** Reasoning in the monad *)

Ltac unfold_M :=
  unfold mbind, mret, fmap, M_bind, M_ret, M_fmap, raise,
    crud.query, neo4j_client.write, neo4j_client.read in *.

(** ** Propagation failure (C1) *)

Lemma create_user_graph_down `{!auth.Hasher} user w row w' :
  neo4j_up w = false →
  crud.insert_user (schemas.UserCreate.username user) (schemas.UserCreate.email user)
    (auth.get_password_hash (schemas.UserCreate.password user)) w = (Returned row, w') →
  crud.create_user user w = (Raised ServiceUnavailable, w').
Proof.
  intros Hdown Hins. unfold crud.create_user, neo4j_client.create_user_node.
  unfold_M. rewrite Hins.
  assert (neo4j_up w' = false) as ->; [|done].
  unfold crud.insert_user in Hins. case_decide; simplify_eq. done.
Qed.

Lemma create_todo_graph_down todo user_id w row w' :
  neo4j_up w = false →
  crud.insert_todo (Some (schemas.TodoCreate.title todo)) (schemas.TodoCreate.description todo)
    (Some (schemas.TodoCreate.priority todo)) (schemas.TodoCreate.due_date todo) user_id w
    = (Returned row, w') →
  crud.create_todo todo user_id w = (Raised ServiceUnavailable, w').
Proof.
  intros Hdown Hins. unfold crud.create_todo, neo4j_client.create_todo_node.
  unfold_M. rewrite Hins.
  assert (neo4j_up w' = false) as ->; [|done].
  unfold crud.insert_todo in Hins. case_decide; simplify_eq. done.
Qed.

Lemma create_category_graph_down category user_id w row w' :
  neo4j_up w = false →
  crud.insert_category (schemas.CategoryCreate.name category)
    (Some (schemas.CategoryCreate.color category)) user_id w = (Returned row, w') →
  crud.create_category category user_id w = (Raised ServiceUnavailable, w').
Proof.
  intros Hdown Hins. unfold crud.create_category, neo4j_client.create_category_node.
  unfold_M. rewrite Hins.
  assert (neo4j_up w' = false) as ->; [|done].
  unfold crud.insert_category in Hins. case_decide; simplify_eq. done.
Qed.

(** C1, as the code has it: when the graph statement cannot be run, each of
    [create_user], [create_todo] and [create_category] raises the driver's
    exception to its caller instead of returning the entity; the row the
    INSERT committed before stays in the relational store (appended to its
    table, nothing rolled back) and the graph is as it was. *)
Theorem propagation_failure_raises_after_commit `{!auth.Hasher} (w : World) :
  neo4j_up w = false →
  (∀ user row w',
     crud.insert_user (schemas.UserCreate.username user) (schemas.UserCreate.email user)
       (auth.get_password_hash (schemas.UserCreate.password user)) w = (Returned row, w') →
     crud.create_user user w = (Raised ServiceUnavailable, w') ∧
     users (db w') = users (db w) ++ [row] ∧ neo4j w' = neo4j w) ∧
  (∀ todo user_id row w',
     crud.insert_todo (Some (schemas.TodoCreate.title todo))
       (schemas.TodoCreate.description todo) (Some (schemas.TodoCreate.priority todo))
       (schemas.TodoCreate.due_date todo) user_id w = (Returned row, w') →
     crud.create_todo todo user_id w = (Raised ServiceUnavailable, w') ∧
     todos (db w') = todos (db w) ++ [row] ∧ neo4j w' = neo4j w) ∧
  (∀ category user_id row w',
     crud.insert_category (schemas.CategoryCreate.name category)
       (Some (schemas.CategoryCreate.color category)) user_id w = (Returned row, w') →
     crud.create_category category user_id w = (Raised ServiceUnavailable, w') ∧
     categories (db w') = categories (db w) ++ [row] ∧ neo4j w' = neo4j w).
Proof.
  intros Hdown. split_and!.
  - intros user row w' Hins. split; [by eapply create_user_graph_down|].
    unfold crud.insert_user in Hins. case_decide; by simplify_eq.
  - intros todo user_id row w' Hins. split; [by eapply create_todo_graph_down|].
    unfold crud.insert_todo in Hins. case_decide; by simplify_eq.
  - intros category user_id row w' Hins. split; [by eapply create_category_graph_down|].
    unfold crud.insert_category in Hins. case_decide; by simplify_eq.
Qed.

(** With the graph server away, alice (already registered) posts a todo:
    the call raises, the todo is in the table. *)
Lemma propagation_failure_raises_after_commit_witness :
  neo4j_up example.graph_down = false ∧
  crud.create_todo example.write_report 1 example.graph_down
    = (Raised ServiceUnavailable,
       (crud.insert_todo (Some "Write report") None (Some "medium") None 1
          example.graph_down).2) ∧
  models.Todo.id <$> todos (db (crud.create_todo example.write_report 1 example.graph_down).2)
    = [1].
Proof.
  pose proof (@propagation_failure_raises_after_commit example.hasher
                example.graph_down eq_refl) as (_ & Htodo & _).
  destruct (crud.insert_todo (Some "Write report") None (Some "medium") None 1
              example.graph_down) as [o w'] eqn:Hins.
  vm_compute in Hins.
  destruct o as [row|e]; [|discriminate Hins].
  destruct (Htodo example.write_report 1 row w') as (Hcall & Hrows & _).
  { vm_compute. exact Hins. }
  split; [reflexivity|]. split; [exact Hcall|].
  rewrite Hcall. simpl. rewrite Hrows. injection Hins as <- <-. reflexivity.
Defined.

(** C1 as stated fails: with the graph server away, registering alice,
    posting a todo and posting a category each raise [ServiceUnavailable];
    none of the three calls returns the entity it has committed. *)
Lemma propagation_failure_is_not_recovered :
  (@crud.create_user example.hasher example.alice (initial 0 false)).1
    = Raised ServiceUnavailable ∧
  users (db (@crud.create_user example.hasher example.alice (initial 0 false)).2)
    = [example.alice_row] ∧
  (crud.create_todo example.write_report 1 example.graph_down).1
    = Raised ServiceUnavailable ∧
  length (todos (db (crud.create_todo example.write_report 1 example.graph_down).2)) = 1%nat ∧
  (crud.create_category example.work 1 example.graph_down).1
    = Raised ServiceUnavailable ∧
  length (categories (db (crud.create_category example.work 1 example.graph_down).2)) = 1%nat.
Proof. vm_compute. repeat split. Qed.

(** ** Ownership scoping (C2) *)

Lemma NoDup_fmap_eq {A B} (f : A → B) (l : list A) x y :
  NoDup (f <$> l) → x ∈ l → y ∈ l → f x = f y → x = y.
Proof.
  induction l as [|a l IH]; intros Hnd Hx Hy Hf; [by apply elem_of_nil in Hx|].
  rewrite fmap_cons in Hnd. apply NoDup_cons in Hnd as [Hnotin Hnd].
  apply elem_of_cons in Hx as [->|Hx]; apply elem_of_cons in Hy as [->|Hy].
  - done.
  - exfalso. apply Hnotin. rewrite Hf. by apply list_elem_of_fmap_2.
  - exfalso. apply Hnotin. rewrite <- Hf. by apply list_elem_of_fmap_2.
  - by apply IH.
Qed.

(** The scoped lookup misses a row that belongs to somebody else. *)
Lemma get_todo_foreign w t user_id :
  todos_pk (db w) → t ∈ todos (db w) → models.Todo.user_id t ≠ user_id →
  crud.get_todo (models.Todo.id t) user_id w = (Returned None, w).
Proof.
  intros [Hnd _] Hin Hne. unfold crud.get_todo. unfold_M.
  destruct (filter _ (todos (db w))) as [|t' l] eqn:Hf; [done|].
  exfalso.
  assert (t' ∈ filter (λ t0, models.Todo.id t0 = models.Todo.id t
                              ∧ models.Todo.user_id t0 = user_id) (todos (db w))) as Hin'.
  { rewrite Hf. apply elem_of_cons. by left. }
  apply list_elem_of_filter in Hin' as [[Hid Hu] Hin'].
  assert (t' = t) as -> by (eapply NoDup_fmap_eq; eauto).
  done.
Qed.

(** The scoped lookup misses when no row has the id. *)
Lemma get_todo_absent w todo_id user_id :
  (∀ t, t ∈ todos (db w) → models.Todo.id t ≠ todo_id) →
  crud.get_todo todo_id user_id w = (Returned None, w).
Proof.
  intros Habs. unfold crud.get_todo. unfold_M.
  destruct (filter _ (todos (db w))) as [|t' l] eqn:Hf; [done|].
  exfalso.
  assert (t' ∈ filter (λ t0, models.Todo.id t0 = todo_id
                              ∧ models.Todo.user_id t0 = user_id) (todos (db w))) as Hin'.
  { rewrite Hf. apply elem_of_cons. by left. }
  apply list_elem_of_filter in Hin' as [[Hid Hu] Hin']. by eapply Habs.
Qed.

(** Once the lookup misses, each of the three routes answers 404 and
    leaves the world as it was. *)
Lemma routes_not_found w todo_id u todo_update :
  crud.get_todo todo_id (models.User.id u) w = (Returned None, w) →
  main.read_todo todo_id u w = (Raised (HTTPException 404 "Todo not found"), w) ∧
  main.update_todo todo_id todo_update u w = (Raised (HTTPException 404 "Todo not found"), w) ∧
  main.delete_todo todo_id u w = (Raised (HTTPException 404 "Todo not found"), w).
Proof.
  intros Hget.
  unfold main.read_todo, main.update_todo, main.delete_todo,
    crud.update_todo, crud.delete_todo, mbind, M_bind.
  rewrite Hget. done.
Qed.

(** C2: user [a] asks for, updates or deletes a todo [t] that user [b]
    owns.  Each of the three routes answers exactly
    [HTTPException 404 "Todo not found"] and changes nothing, and that is
    also the answer in any world [w0] where no todo has that id: nothing of
    [t] reaches [a], and the answers to "not yours" and "absent" are the
    same value. *)
Theorem foreign_todo_is_not_found (w w0 : World) (a b : models.User.t)
    (t : models.Todo.t) (todo_update : schemas.TodoUpdate.t) :
  todos_pk (db w) →
  t ∈ todos (db w) →
  models.Todo.user_id t = models.User.id b →
  models.User.id a ≠ models.User.id b →
  (∀ t0, t0 ∈ todos (db w0) → models.Todo.id t0 ≠ models.Todo.id t) →
  main.read_todo (models.Todo.id t) a w = (Raised (HTTPException 404 "Todo not found"), w) ∧
  main.read_todo (models.Todo.id t) a w0 = (Raised (HTTPException 404 "Todo not found"), w0) ∧
  main.update_todo (models.Todo.id t) todo_update a w
    = (Raised (HTTPException 404 "Todo not found"), w) ∧
  main.update_todo (models.Todo.id t) todo_update a w0
    = (Raised (HTTPException 404 "Todo not found"), w0) ∧
  main.delete_todo (models.Todo.id t) a w = (Raised (HTTPException 404 "Todo not found"), w) ∧
  main.delete_todo (models.Todo.id t) a w0 = (Raised (HTTPException 404 "Todo not found"), w0).
Proof.
  intros Hpk Hin Hown Hab Habs.
  assert (crud.get_todo (models.Todo.id t) (models.User.id a) w = (Returned None, w)) as Hw.
  { apply get_todo_foreign; [done..|]. rewrite Hown. done. }
  assert (crud.get_todo (models.Todo.id t) (models.User.id a) w0 = (Returned None, w0)) as Hw0.
  { by apply get_todo_absent. }
  destruct (routes_not_found w _ a todo_update Hw) as (? & ? & ?).
  destruct (routes_not_found w0 _ a todo_update Hw0) as (? & ? & ?).
  done.
Qed.

(** alice asks for bob's todo 2; in the world before any todo was posted
    the id is absent. *)
Lemma foreign_todo_is_not_found_witness :
  main.read_todo 2 example.alice_row example.two_todos
    = (Raised (HTTPException 404 "Todo not found"), example.two_todos) ∧
  main.read_todo 2 example.alice_row example.two_users
    = (Raised (HTTPException 404 "Todo not found"), example.two_users) ∧
  main.update_todo 2 example.only_completed example.alice_row example.two_todos
    = (Raised (HTTPException 404 "Todo not found"), example.two_todos) ∧
  main.update_todo 2 example.only_completed example.alice_row example.two_users
    = (Raised (HTTPException 404 "Todo not found"), example.two_users) ∧
  main.delete_todo 2 example.alice_row example.two_todos
    = (Raised (HTTPException 404 "Todo not found"), example.two_todos) ∧
  main.delete_todo 2 example.alice_row example.two_users
    = (Raised (HTTPException 404 "Todo not found"), example.two_users).
Proof.
  apply (foreign_todo_is_not_found example.two_todos example.two_users
           example.alice_row example.bob_row example.bob_todo example.only_completed).
  - apply (bool_decide_unpack _). vm_compute. exact I.
  - apply (bool_decide_unpack _). vm_compute. exact I.
  - reflexivity.
  - discriminate.
  - intros t0 Hin. vm_compute in Hin. inversion Hin.
Defined.

(** ** The recommendation traversal (C3) *)

Lemma elem_of_out_nodes g a t l b :
  b ∈ graph.out_nodes a t l g ↔
  b ∈ graph.nodes g ∧ graph.label b = l ∧
  graph.mkRel (graph.nid a) t (graph.nid b) ∈ graph.rels g.
Proof.
  unfold graph.out_nodes, graph.node_at. rewrite list_elem_of_bind. split.
  - intros (r & Hb & Hr).
    apply list_elem_of_filter in Hb as [[Hnid Hl] Hb].
    apply list_elem_of_filter in Hr as [[Hsrc Hty] Hr].
    destruct r as [s ty d]; simpl in *; subst. done.
  - intros (Hb & Hl & Hr). exists (graph.mkRel (graph.nid a) t (graph.nid b)). split.
    + apply list_elem_of_filter. done.
    + apply list_elem_of_filter. done.
Qed.

Lemma elem_of_in_nodes g b t l a :
  a ∈ graph.in_nodes b t l g ↔
  a ∈ graph.nodes g ∧ graph.label a = l ∧
  graph.mkRel (graph.nid a) t (graph.nid b) ∈ graph.rels g.
Proof.
  unfold graph.in_nodes, graph.node_at. rewrite list_elem_of_bind. split.
  - intros (r & Ha & Hr).
    apply list_elem_of_filter in Ha as [[Hnid Hl] Ha].
    apply list_elem_of_filter in Hr as [[Hdst Hty] Hr].
    destruct r as [s ty d]; simpl in *; subst. done.
  - intros (Ha & Hl & Hr). exists (graph.mkRel (graph.nid a) t (graph.nid b)). split.
    + apply list_elem_of_filter. done.
    + apply list_elem_of_filter. done.
Qed.

(** The rows of the two MATCH clauses: the asking user has a todo in [c],
    and [other_todo] is a todo in [c] of a user with another id. *)
Lemma elem_of_recommendation_rows g user_id other_todo c :
  (other_todo, c) ∈ cypher.recommendation_rows user_id g ↔
  has_todo_in g user_id c ∧ shared_by_other g user_id other_todo c.
Proof.
  unfold cypher.recommendation_rows, has_todo_in, shared_by_other, owns, belongs_to, related.
  split.
  - intros H.
    apply list_elem_of_bind in H as (u & H & Hu).
    apply list_elem_of_bind in H as (t & H & Ht).
    apply list_elem_of_bind in H as (c' & H & Hc).
    apply list_elem_of_bind in H as (ot & H & Hot).
    apply list_elem_of_bind in H as (ou & H & Hou).
    case_decide as Hd; [|by apply elem_of_nil in H].
    apply list_elem_of_singleton in H. simplify_eq.
    apply list_elem_of_filter in Hu as [Hkey Hu].
    apply elem_of_out_nodes in Ht as (? & ? & ?).
    apply elem_of_out_nodes in Hc as (? & ? & ?).
    apply elem_of_in_nodes in Hot as (? & ? & ?).
    apply elem_of_in_nodes in Hou as (? & ? & ?).
    split.
    + exists u, t. destruct Hkey. done.
    + exists ou. done.
  - intros [(u & t & Hkey & (Hlu & Hlt & Hu & Ht & Hut) & (_ & Hlc & _ & Hc & Htc))
            (ou & (Hlot & _ & Hot & _ & Hotc) & (Hlou & _ & Hou & _ & Houot) & Hd)].
    apply list_elem_of_bind. exists u. split; [|by apply list_elem_of_filter].
    apply list_elem_of_bind. exists t. split; [|by apply elem_of_out_nodes].
    apply list_elem_of_bind. exists c. split; [|by apply elem_of_out_nodes].
    apply list_elem_of_bind. exists other_todo. split; [|by apply elem_of_in_nodes].
    apply list_elem_of_bind. exists ou. split; [|by apply elem_of_in_nodes].
    rewrite decide_True by done. by apply list_elem_of_singleton.
Qed.

(** C3: the traversal answers at most five pairs; each pair is the title
    of a todo and the name of a category such that the asking user owns a
    todo in that category and the todo of the pair belongs to the same
    category node and is owned by a user with another id; when the asking
    user owns no todo in any category, or no todo of another user shares a
    category with one of theirs, the answer is the empty list; and the
    client returns that answer, unchanged world, when the statement runs. *)
Theorem recommendations_sound (user_id : Z) (w : World) :
  let result := cypher.get_todo_recommendations user_id (neo4j w) in
  (length result ≤ 5)%nat ∧
  (∀ p, p ∈ result →
     ∃ other_todo c,
       p = (graph.props other_todo !! "title", graph.props c !! "name") ∧
       has_todo_in (neo4j w) user_id c ∧ shared_by_other (neo4j w) user_id other_todo c) ∧
  ((∀ c, ¬ has_todo_in (neo4j w) user_id c) → result = []) ∧
  ((∀ other_todo c, has_todo_in (neo4j w) user_id c →
                    ¬ shared_by_other (neo4j w) user_id other_todo c) → result = []) ∧
  (neo4j_up w = true →
   neo4j_client.get_todo_recommendations user_id w
     = (Returned ((λ '(r, c), neo4j_client.mkRecommendation r c) <$> result), w)).
Proof.
  intros result.
  assert (∀ p, p ∈ result →
     ∃ other_todo c,
       p = (graph.props other_todo !! "title", graph.props c !! "name") ∧
       has_todo_in (neo4j w) user_id c ∧ shared_by_other (neo4j w) user_id other_todo c)
    as Hsound.
  { intros p Hp. unfold result, cypher.get_todo_recommendations in Hp.
    apply subseteq_take in Hp. apply list_elem_of_fmap in Hp as ([ot c] & -> & Hrow).
    apply elem_of_recommendation_rows in Hrow. eauto. }
  split_and!.
  - unfold result, cypher.get_todo_recommendations. rewrite length_take. lia.
  - exact Hsound.
  - intros Hnone. clearbody result. destruct result as [|p l]; [done|].
    destruct (Hsound p) as (ot & c & _ & Hc & _); [apply elem_of_cons; by left|].
    by apply Hnone in Hc.
  - intros Hnone. clearbody result. destruct result as [|p l]; [done|].
    destruct (Hsound p) as (ot & c & _ & Hc & Hs); [apply elem_of_cons; by left|].
    by apply Hnone in Hs.
  - intros Hup. unfold neo4j_client.get_todo_recommendations, neo4j_client.read.
    rewrite Hup. done.
Qed.

(** ** Partial update (C4, C10) *)

Lemma foldl_setattr t u :
  let t' := foldl crud.setattr t (schemas.TodoUpdate.dict_exclude_unset u) in
  models.Todo.title t' = updated (models.Todo.title t) (schemas.TodoUpdate.title u) ∧
  models.Todo.description t'
    = updated (models.Todo.description t) (schemas.TodoUpdate.description u) ∧
  models.Todo.completed t' = updated (models.Todo.completed t) (schemas.TodoUpdate.completed u) ∧
  models.Todo.priority t' = updated (models.Todo.priority t) (schemas.TodoUpdate.priority u) ∧
  models.Todo.due_date t' = updated (models.Todo.due_date t) (schemas.TodoUpdate.due_date u) ∧
  models.Todo.id t' = models.Todo.id t ∧
  models.Todo.user_id t' = models.Todo.user_id t ∧
  models.Todo.created_at t' = models.Todo.created_at t.
Proof.
  destruct u as [[?|] [?|] [?|] [?|] [?|]]; cbn; done.
Qed.

(** The scoped lookup only reads, and what it finds is a stored row with
    the id and the owner that were asked for. *)
Lemma get_todo_Some w todo_id user_id t w' :
  crud.get_todo todo_id user_id w = (Returned (Some t), w') →
  w' = w ∧ t ∈ todos (db w) ∧ models.Todo.id t = todo_id ∧ models.Todo.user_id t = user_id.
Proof.
  unfold crud.get_todo. unfold_M. intros H.
  destruct (filter _ (todos (db w))) as [|t0 l] eqn:Hf; simpl in H; [discriminate|].
  injection H as Ht Hw. subst t0 w'.
  assert (t ∈ filter (λ t0, models.Todo.id t0 = todo_id
                             ∧ models.Todo.user_id t0 = user_id) (todos (db w))) as Hin.
  { rewrite Hf. apply elem_of_cons. by left. }
  apply list_elem_of_filter in Hin as [[? ?] ?]. done.
Qed.

Lemma update_todo_found w todo_id user_id t u :
  crud.get_todo todo_id user_id w = (Returned (Some t), w) →
  crud.update_todo todo_id u user_id w
  = (Some <$> crud.flush_todo t
       (foldl crud.setattr t (schemas.TodoUpdate.dict_exclude_unset u))) w.
Proof. intros Hget. unfold crud.update_todo, mbind, M_bind. by rewrite Hget. Qed.







(** ** Merging by key (C5) *)

Lemma filter_fmap_stable {A} (P : A → Prop) `{!∀ x, Decision (P x)} (f : A → A)
    (l : list A) :
  (∀ x, P (f x) ↔ P x) → filter P (f <$> l) = f <$> filter P l.
Proof.
  intros HP. induction l as [|x l IH]; [done|].
  rewrite fmap_cons, !filter_cons.
  destruct (decide (P (f x))) as [Hfx|Hfx], (decide (P x)) as [Hx|Hx].
  - by rewrite fmap_cons, IH.
  - exfalso. apply Hx. by apply HP.
  - exfalso. apply Hfx. by apply HP.
  - exact IH.
Qed.

(** SET on another property than "id" keeps every node under its key. *)
Lemma has_key_set_node l k key v n :
  key ≠ "id" → graph.has_key l k (graph.set_node key v n) ↔ graph.has_key l k n.
Proof.
  intros Hkey. unfold graph.has_key, graph.set_node. simpl.
  destruct v; [rewrite lookup_insert_ne by done|rewrite lookup_delete_ne by done]; done.
Qed.

Lemma match_nodes_set_prop l k x key v g :
  key ≠ "id" →
  graph.match_nodes l k (graph.set_prop x key v g)
  = (λ n, if decide (graph.nid n = x) then graph.set_node key v n else n)
      <$> graph.match_nodes l k g.
Proof.
  intros Hkey. unfold graph.match_nodes, graph.set_prop. simpl.
  apply filter_fmap_stable. intros n. case_decide; [|done].
  by apply has_key_set_node.
Qed.

(** One delivery of a User node, on a graph with at most one node under
    the key: afterwards exactly one, with the delivered properties; it is
    the node that was there when there was one, and a new one otherwise. *)
Lemma create_user_node_once g user_id username email :
  (length (graph.match_nodes graph.User user_id g) ≤ 1)%nat →
  let g' := cypher.create_user_node user_id username email g in
  ∃ n,
    graph.match_nodes graph.User user_id g' = [n] ∧
    graph.props n !! "id" = Some (graph.VInt user_id) ∧
    graph.props n !! "username" = Some (graph.VStr username) ∧
    graph.props n !! "email" = Some (graph.VStr email) ∧
    graph.rels g' = graph.rels g ∧
    match graph.match_nodes graph.User user_id g with
    | [] => length (graph.nodes g') = S (length (graph.nodes g))
    | n0 :: _ => graph.nid n = graph.nid n0 ∧
                 length (graph.nodes g') = length (graph.nodes g)
    end.
Proof.
  intros Hle g'. unfold g', cypher.create_user_node, graph.merge_node.
  destruct (graph.match_nodes graph.User user_id g) as [|n0 [|n1 rest]] eqn:Hm.
  - simpl. exists (graph.set_node "email" (Some (graph.VStr email))
                     (graph.set_node "username" (Some (graph.VStr username))
                        (graph.mkNode (graph.next_nid g) graph.User
                           {[ "id" := graph.VInt user_id ]}))).
    split.
    + rewrite !match_nodes_set_prop by done.
      unfold graph.match_nodes. simpl. rewrite filter_app.
      unfold graph.match_nodes in Hm. rewrite Hm. simpl.
      rewrite filter_cons_True by (split; [done|by simplify_map_eq]).
      simpl. destruct (decide (graph.next_nid g = graph.next_nid g)); [|done].
      simpl. by rewrite decide_True.
    + simpl. split_and!; try by simplify_map_eq.
      rewrite !length_fmap, length_app. simpl. lia.
  - simpl. exists (graph.set_node "email" (Some (graph.VStr email))
                     (graph.set_node "username" (Some (graph.VStr username)) n0)).
    assert (graph.has_key graph.User user_id n0) as [Hl Hid].
    { assert (n0 ∈ graph.match_nodes graph.User user_id g) as Hin
        by (rewrite Hm; apply elem_of_cons; by left).
      by apply list_elem_of_filter in Hin as [? _]. }
    split.
    + rewrite !match_nodes_set_prop by done. rewrite Hm. simpl.
      destruct (decide (graph.nid n0 = graph.nid n0)); [|done].
      simpl. by rewrite decide_True.
    + simpl. split_and!; try by simplify_map_eq.
      by rewrite !length_fmap.
  - simpl in Hle. lia.
Qed.

(** C5: on a graph with at most one User node under the id (what merging
    by key maintains), two deliveries of the same user id leave exactly one
    User node under that id; the second delivery creates no node and no
    relationship, it rewrites the node of the first in place, and the
    node carries the username and email of the second delivery. *)
Theorem create_user_node_idempotent (w : World) (user_id : Z)
    (username1 email1 username2 email2 : string) :
  neo4j_up w = true →
  (length (graph.match_nodes graph.User user_id (neo4j w)) ≤ 1)%nat →
  ∃ w1 w2 n1 n2,
    neo4j_client.create_user_node user_id username1 email1 w = (Returned (), w1) ∧
    neo4j_client.create_user_node user_id username2 email2 w1 = (Returned (), w2) ∧
    graph.match_nodes graph.User user_id (neo4j w1) = [n1] ∧
    graph.match_nodes graph.User user_id (neo4j w2) = [n2] ∧
    graph.nid n2 = graph.nid n1 ∧
    graph.props n2 !! "username" = Some (graph.VStr username2) ∧
    graph.props n2 !! "email" = Some (graph.VStr email2) ∧
    length (graph.nodes (neo4j w2)) = length (graph.nodes (neo4j w1)) ∧
    graph.rels (neo4j w2) = graph.rels (neo4j w1) ∧
    db w2 = db w.
Proof.
  intros Hup Hle.
  unfold neo4j_client.create_user_node, neo4j_client.write. rewrite Hup. simpl.
  destruct (create_user_node_once (neo4j w) user_id username1 email1 Hle)
    as (n1 & Hm1 & _ & _ & _ & _ & _).
  set (g1 := cypher.create_user_node user_id username1 email1 (neo4j w)) in *.
  assert (length (graph.match_nodes graph.User user_id g1) ≤ 1)%nat as Hle1
    by (rewrite Hm1; simpl; lia).
  destruct (create_user_node_once g1 user_id username2 email2 Hle1)
    as (n2 & Hm2 & _ & Hu & He & Hrels & Hsame).
  rewrite Hm1 in Hsame. destruct Hsame as [Hnid Hlen].
  eexists _, _, n1, n2. split; [reflexivity|]. simpl. split; [reflexivity|]. simpl.
  done.
Qed.

(** alice is delivered again, with a new name and address. *)
Lemma create_user_node_idempotent_witness :
  ∃ w1 w2 n1 n2,
    neo4j_client.create_user_node 1 "alice" "alice@example.com" example.two_users
      = (Returned (), w1) ∧
    neo4j_client.create_user_node 1 "alice2" "alice@example.org" w1 = (Returned (), w2) ∧
    graph.match_nodes graph.User 1 (neo4j w1) = [n1] ∧
    graph.match_nodes graph.User 1 (neo4j w2) = [n2] ∧
    graph.nid n2 = graph.nid n1 ∧
    graph.props n2 !! "username" = Some (graph.VStr "alice2") ∧
    graph.props n2 !! "email" = Some (graph.VStr "alice@example.org") ∧
    length (graph.nodes (neo4j w2)) = length (graph.nodes (neo4j w1)) ∧
    graph.rels (neo4j w2) = graph.rels (neo4j w1) ∧
    db w2 = db example.two_users.
Proof.
  apply (create_user_node_idempotent example.two_users 1
           "alice" "alice@example.com" "alice2" "alice@example.org").
  - reflexivity.
  - apply (bool_decide_unpack _). vm_compute. exact I.
Defined.

(** ** Registration (C6) *)

Lemma head_filter_None {A} (P : A → Prop) `{!∀ x, Decision (P x)} (l : list A) :
  head (filter P l) = None ↔ ¬ Exists P l.
Proof.
  induction l as [|x l IH].
  - split; [intros _ Hex; by apply Exists_nil in Hex|done].
  - rewrite filter_cons. destruct (decide (P x)) as [Hx|Hx]; simpl.
    + split; [done|]. intros Hex. exfalso. apply Hex. by left.
    + rewrite IH. split.
      * intros Hl Hex. apply Exists_cons in Hex as [?|?]; done.
      * intros Hex Hl. apply Hex. by right.
Qed.

Lemma head_filter_Some {A} (P : A → Prop) `{!∀ x, Decision (P x)} (l : list A) x :
  head (filter P l) = Some x → P x ∧ x ∈ l.
Proof.
  intros Hhd. apply (list_elem_of_filter P).
  destruct (filter P l) as [|y l']; simplify_eq/=. apply elem_of_cons. by left.
Qed.

(** What [register] does, by cases on the two lookups. *)
Lemma register_unfold `{!auth.Hasher} user w :
  main.register user w =
  if decide (Exists (λ u, models.User.username u = schemas.UserCreate.username user)
               (users (db w)))
  then (Raised (HTTPException 400 "Username already registered"), w)
  else if decide (Exists (λ u, models.User.email u = schemas.UserCreate.email user)
                    (users (db w)))
  then (Raised (HTTPException 400 "Email already registered"), w)
  else crud.create_user user w.
Proof.
  unfold main.register, crud.get_user_by_username, crud.get_user_by_email. unfold_M.
  destruct (head (filter (λ u, models.User.username u = schemas.UserCreate.username user)
                    (users (db w)))) as [u|] eqn:Hu.
  - apply head_filter_Some in Hu as [Hu Hin].
    rewrite decide_True; [done|]. apply Exists_exists. exists u.
    done.
  - apply head_filter_None in Hu. rewrite (decide_False _ _ Hu).
    destruct (head (filter (λ u, models.User.email u = schemas.UserCreate.email user)
                      (users (db w)))) as [u|] eqn:He.
    + apply head_filter_Some in He as [He Hin].
      rewrite decide_True; [done|]. apply Exists_exists. exists u.
      done.
    + apply head_filter_None in He. by rewrite (decide_False _ _ He).
Qed.




(** ** Mirroring a todo (C7) *)

(** MERGE of a node: the rows are the nodes under the key afterwards, there
    is at least one, no relationship changes, and the nodes under any other
    key are the ones that were there. *)
Lemma merge_node_spec l k g :
  let '(g1, ns) := graph.merge_node l k g in
  ns = graph.match_nodes l k g1 ∧ ns ≠ [] ∧
  graph.rels g1 = graph.rels g ∧
  (∀ l' k', (l', k') ≠ (l, k) → graph.match_nodes l' k' g1 = graph.match_nodes l' k' g) ∧
  (graph.match_nodes l k g ≠ [] → g1 = g).
Proof.
  unfold graph.merge_node.
  destruct (graph.match_nodes l k g) as [|n ns] eqn:Hm.
  - split_and!; try done.
    + unfold graph.match_nodes in *. simpl. rewrite filter_app, Hm. simpl.
      rewrite filter_cons_True by (split; [done|by simplify_map_eq]). done.
    + intros l' k' Hne. unfold graph.match_nodes. simpl. rewrite filter_app. simpl.
      rewrite filter_cons_False, filter_nil, app_nil_r; [done|].
      intros [Hl Hk]. simpl in *. rewrite lookup_singleton_eq in Hk. congruence.
  - split_and!; done.
Qed.

Lemma nid_match_nodes_set_prop l k x v g :
  graph.nid <$> graph.match_nodes l k (graph.set_prop x "title" v g)
  = graph.nid <$> graph.match_nodes l k g.
Proof.
  rewrite match_nodes_set_prop by done. rewrite <- list_fmap_compose.
  apply list_fmap_ext. intros i n _. simpl. by case_decide.
Qed.

(** SET t.title over the rows of the MERGE: no relationship changes, the
    nodes under every key keep their identities, and each node bound to a
    row has the title. *)
Lemma foldl_set_title v ts : ∀ g (S : nat → Prop),
  (∀ n, n ∈ graph.nodes g → S (graph.nid n) → graph.props n !! "title" = Some v) →
  let g2 := foldl (λ g t, graph.set_prop (graph.nid t) "title" (Some v) g) g ts in
  graph.rels g2 = graph.rels g ∧
  (∀ l k, graph.nid <$> graph.match_nodes l k g2 = graph.nid <$> graph.match_nodes l k g) ∧
  (∀ n, n ∈ graph.nodes g2 → S (graph.nid n) ∨ graph.nid n ∈ graph.nid <$> ts →
        graph.props n !! "title" = Some v).
Proof.
  induction ts as [|t ts IH]; intros g S HS; simpl.
  - split_and!; try done. intros n Hn [?|Hin]; [by apply HS|].
    by apply elem_of_nil in Hin.
  - destruct (IH (graph.set_prop (graph.nid t) "title" (Some v) g)
                (λ x, S x ∨ x = graph.nid t)) as (Hrels & Hnids & Htitle).
    { intros n Hn Hx. unfold graph.set_prop in Hn. simpl in Hn.
      apply list_elem_of_fmap in Hn as (n0 & -> & Hn0).
      case_decide as Hd; simpl.
      - by rewrite lookup_insert_eq.
      - destruct Hx as [?|?]; [by apply HS|done]. }
    split_and!.
    + by rewrite Hrels.
    + intros l k. by rewrite Hnids, nid_match_nodes_set_prop.
    + intros n Hn Hx. apply Htitle; [done|].
      destruct Hx as [?|Hx]; [by left; left|].
      apply elem_of_cons in Hx as [?|?]; [by left; right|by right].
Qed.

(** One MERGE of a relationship. *)
Lemma merge_rel_spec a ty b g :
  let g' := graph.merge_rel a ty b g in
  graph.nodes g' = graph.nodes g ∧
  graph.mkRel a ty b ∈ graph.rels g' ∧
  (∀ r, r ∈ graph.rels g' ↔ r ∈ graph.rels g ∨ r = graph.mkRel a ty b).
Proof.
  unfold graph.merge_rel. case_decide as Hin; simpl.
  - split_and!; [done..|]. intros r. split; [by left|]. by intros [?| ->].
  - split_and!; [done| |].
    + apply elem_of_app. right. apply elem_of_cons. by left.
    + intros r. rewrite elem_of_app, list_elem_of_singleton. done.
Qed.

(** Merging the same relationship again changes nothing. *)
Lemma merge_rel_idempotent a ty b g :
  graph.merge_rel a ty b (graph.merge_rel a ty b g) = graph.merge_rel a ty b g.
Proof.
  destruct (merge_rel_spec a ty b g) as (_ & Hin & _).
  unfold graph.merge_rel at 1. by rewrite decide_True.
Qed.

(** MERGE of a relationship of type [ty] over the rows (end, start): the
    nodes stay, what is new are the relationships of the rows. *)
Lemma foldl_merge_rel ty rows : ∀ g,
  let g' := foldl (λ g '(b, a), graph.merge_rel (graph.nid a) ty (graph.nid b) g) g rows in
  graph.nodes g' = graph.nodes g ∧
  (∀ r, r ∈ graph.rels g' ↔
        r ∈ graph.rels g ∨
        ∃ b a, (b, a) ∈ rows ∧ r = graph.mkRel (graph.nid a) ty (graph.nid b)).
Proof.
  induction rows as [|[b a] rows IH]; intros g; simpl.
  - split; [done|]. intros r. split; [by left|]. intros [?|(b & a & Hin & _)]; [done|].
    by apply elem_of_nil in Hin.
  - destruct (IH (graph.merge_rel (graph.nid a) ty (graph.nid b) g)) as [Hnodes Hrels].
    destruct (merge_rel_spec (graph.nid a) ty (graph.nid b) g) as (Hn1 & _ & Hr1).
    split; [by rewrite Hnodes|].
    intros r. rewrite Hrels, Hr1. split.
    + intros [[?| ->]|(b' & a' & Hin & ->)].
      * by left.
      * right. exists b, a. split; [apply elem_of_cons; by left|done].
      * right. exists b', a'. split; [apply elem_of_cons; by right|done].
    + intros [?|(b' & a' & Hin & ->)]; [by left; left|].
      apply elem_of_cons in Hin as [Heq|Hin].
      * injection Heq as -> ->. left. by right.
      * right. eauto.
Qed.

Lemma match_nodes_nodes l k g g' :
  graph.nodes g' = graph.nodes g → graph.match_nodes l k g' = graph.match_nodes l k g.
Proof. unfold graph.match_nodes. by intros ->. Qed.

Lemma bind_no_rows {A B C} (ts : list A) (f : A → B → list C) :
  (t ← ts; u ← []; f t u) = [].
Proof. induction ts as [|t ts IH]; [done|]. simpl. exact IH. Qed.

Lemma elem_of_rows {A B} (ts : list A) (us : list B) t u :
  t ∈ ts → u ∈ us → (t, u) ∈ (t ← ts; u ← us; [(t, u)]).
Proof.
  intros Ht Hu. apply list_elem_of_bind. exists t. split; [|done].
  apply list_elem_of_bind. exists u. split; [|done]. by apply list_elem_of_singleton.
Qed.

(** The statement of [create_todo_node] on any graph. *)
Lemma create_todo_node_spec todo_id title user_id g :
  let g' := cypher.create_todo_node todo_id (Some title) user_id g in
  graph.match_nodes graph.Todo todo_id g' ≠ [] ∧
  (∀ n, n ∈ graph.match_nodes graph.Todo todo_id g' →
        graph.props n !! "title" = Some (graph.VStr title)) ∧
  (∀ n u, n ∈ graph.match_nodes graph.Todo todo_id g' →
          u ∈ graph.match_nodes graph.User user_id g →
          graph.mkRel (graph.nid u) graph.OWNS (graph.nid n) ∈ graph.rels g') ∧
  (graph.match_nodes graph.User user_id g = [] → graph.rels g' = graph.rels g) ∧
  graph.nid <$> graph.match_nodes graph.User user_id g'
    = graph.nid <$> graph.match_nodes graph.User user_id g ∧
  (∀ r, r ∈ graph.rels g' → r ∈ graph.rels g ∨ graph.rtype r = graph.OWNS).
Proof.
  unfold cypher.create_todo_node.
  change (graph.param (Some title)) with (Some (graph.VStr title)).
  pose proof (merge_node_spec graph.Todo todo_id g) as Hmerge.
  destruct (graph.merge_node graph.Todo todo_id g) as [g1 ts].
  destruct Hmerge as (Hts & Hne & Hrels1 & Hother & _).
  simpl.
  destruct (foldl_set_title (graph.VStr title) ts g1 (λ _, False)) as (Hrels2 & Hnids & Htitle);
    [done|].
  set (g2 := foldl (λ g t, graph.set_prop (graph.nid t) "title"
                             (Some (graph.VStr title)) g) g1 ts) in *.
  destruct (foldl_merge_rel graph.OWNS
              (t ← ts; u ← graph.match_nodes graph.User user_id g2; [(t, u)]) g2)
    as [Hnodes3 Hrels3].
  set (g3 := foldl _ g2 _) in *.
  assert (graph.nid <$> graph.match_nodes graph.User user_id g2
          = graph.nid <$> graph.match_nodes graph.User user_id g) as Husers.
  { rewrite Hnids, Hother; done. }
  assert (∀ n, n ∈ graph.match_nodes graph.Todo todo_id g3 →
               n ∈ graph.nodes g2 ∧ ∃ t, t ∈ ts ∧ graph.nid t = graph.nid n) as Htodo.
  { intros n Hn. rewrite (match_nodes_nodes _ _ g2 g3 Hnodes3) in Hn. split.
    - by apply list_elem_of_filter in Hn as [_ ?].
    - assert (graph.nid n ∈ graph.nid <$> ts) as Hin.
      { rewrite Hts, <- Hnids. by apply list_elem_of_fmap_2. }
      apply list_elem_of_fmap in Hin as (t & ? & ?). eauto. }
  split_and!.
  - rewrite (match_nodes_nodes _ _ g2 g3 Hnodes3).
    intros Hnil. apply Hne.
    apply (fmap_nil_inv graph.nid). by rewrite Hts, <- Hnids, Hnil.
  - intros n Hn. destruct (Htodo n Hn) as (Hn2 & t & Ht & Hnid).
    apply Htitle; [done|]. right. rewrite <- Hnid. by apply list_elem_of_fmap_2.
  - intros n u Hn Hu. destruct (Htodo n Hn) as (_ & t & Ht & Hnid).
    assert (graph.nid u ∈ graph.nid <$> graph.match_nodes graph.User user_id g2) as Hin
      by (rewrite Husers; by apply list_elem_of_fmap_2).
    apply list_elem_of_fmap in Hin as (u2 & Hnid2 & Hu2).
    apply Hrels3. right. exists t, u2. split; [by apply elem_of_rows|]. congruence.
  - intros Hnone. rewrite Hnone in Husers. apply fmap_nil_inv in Husers.
    unfold g3. rewrite Husers, bind_no_rows. simpl. by rewrite Hrels2.
  - by rewrite (match_nodes_nodes _ _ g2 g3 Hnodes3).
  - intros r Hr. apply Hrels3 in Hr as [Hr|(b & a & _ & ->)]; [|by right].
    left. by rewrite <- Hrels1, <- Hrels2.
Qed.



(** ** Invariants of the service *)

Lemma invariant_ret {A} (P : World → Prop) (a : A) : invariant P (mret a).
Proof. by intros w Hw. Qed.

Lemma invariant_raise {A} (P : World → Prop) (e : exn) : invariant P (@raise A e).
Proof. by intros w Hw. Qed.

Lemma invariant_bind {A B} (P : World → Prop) (m : M A) (f : A → M B) :
  invariant P m → (∀ a, invariant P (f a)) → invariant P (m ≫= f).
Proof.
  intros Hm Hf w Hw. unfold mbind, M_bind.
  specialize (Hm w Hw). destruct (m w) as [[a|e] w1]; simpl in *; [|done].
  by apply Hf.
Qed.

Lemma invariant_fmap {A B} (P : World → Prop) (f : A → B) (m : M A) :
  invariant P m → invariant P (f <$> m).
Proof.
  intros Hm w Hw. unfold fmap, M_fmap.
  specialize (Hm w Hw). by destruct (m w) as [[a|e] w1].
Qed.

Lemma invariant_query {A} (P : World → Prop) (table : Database → list A) (Q : A → Prop)
    `{!∀ x, Decision (Q x)} :
  invariant P (crud.query table Q).
Proof. by intros w Hw. Qed.

Lemma invariant_read {A} (P : World → Prop) (statement : graph.Graph → A) :
  invariant P (neo4j_client.read statement).
Proof. intros w Hw. unfold neo4j_client.read. by destruct (neo4j_up w). Qed.

Ltac invariant_step :=
  first
    [ assumption
    | apply invariant_ret
    | apply invariant_raise
    | apply invariant_query
    | apply invariant_read
    | apply invariant_fmap
    | apply invariant_bind; [|intros ?]
    | match goal with
      | |- invariant _ (match ?x with _ => _ end) => destruct x
      end ].

(** A property that the writes of the service keep is kept by every
    route, and so along every evolution. *)
Section routes.
Context `{!auth.Hasher}.
Variable P : World → Prop.

Hypothesis insert_user_P : ∀ username email hashed_password,
  invariant P (crud.insert_user username email hashed_password).
Hypothesis insert_todo_P : ∀ title description priority due_date user_id,
    invariant P (crud.insert_todo title description priority due_date user_id).
Hypothesis flush_todo_P : ∀ old new,
    models.Todo.id new = models.Todo.id old → invariant P (crud.flush_todo old new).
Hypothesis delete_row_P : ∀ old, invariant P (crud.delete_row old).
Hypothesis insert_category_P : ∀ name color user_id,
    invariant P (crud.insert_category name color user_id).
Hypothesis create_user_node_P : ∀ user_id username email,
    invariant P (neo4j_client.create_user_node user_id username email).
Hypothesis create_todo_node_P : ∀ todo_id title user_id,
    invariant P (neo4j_client.create_todo_node todo_id (Some title) user_id).
Hypothesis create_category_node_P : ∀ category_id name user_id,
    invariant P (neo4j_client.create_category_node category_id name user_id).
Hypothesis set_clock_P : ∀ now w, P w → clock (db w) ≤ now → P (set_clock now w).
Hypothesis set_neo4j_up_P : ∀ up w, P w → P (set_neo4j_up up w).

Lemma register_invariant user : invariant P (main.register user).
Proof.
  unfold main.register, crud.get_user_by_username, crud.get_user_by_email, crud.create_user.
  repeat invariant_step; auto.
Qed.

Lemma create_todo_invariant todo user_id : invariant P (crud.create_todo todo user_id).
Proof.
  intros w Hw. unfold crud.create_todo, mbind, M_bind.
  pose proof (insert_todo_P (Some (schemas.TodoCreate.title todo))
                (schemas.TodoCreate.description todo)
                (Some (schemas.TodoCreate.priority todo))
                (schemas.TodoCreate.due_date todo) user_id w Hw) as Hins.
  destruct (crud.insert_todo _ _ _ _ _ w) as [[t|e] w1] eqn:Hrow; simpl in *; [|done].
  assert (models.Todo.title t = Some (schemas.TodoCreate.title todo)) as ->.
  { unfold crud.insert_todo in Hrow. case_decide; by simplify_eq. }
  pose proof (create_todo_node_P (models.Todo.id t) (schemas.TodoCreate.title todo)
                user_id w1 Hins) as Hnode.
  by destruct (neo4j_client.create_todo_node _ _ _ w1) as [[[]|e] w2].
Qed.

Lemma update_todo_invariant todo_id todo_update user_id :
  invariant P (crud.update_todo todo_id todo_update user_id).
Proof.
  unfold crud.update_todo, crud.get_todo. repeat invariant_step.
  apply flush_todo_P. by destruct (foldl_setattr t todo_update) as (_&_&_&_&_&?&_).
Qed.

Lemma delete_todo_invariant todo_id user_id :
  invariant P (crud.delete_todo todo_id user_id).
Proof. unfold crud.delete_todo, crud.get_todo. repeat invariant_step; auto. Qed.

Lemma create_category_invariant category user_id :
  invariant P (crud.create_category category user_id).
Proof. unfold crud.create_category. repeat invariant_step; auto. Qed.

Lemma serve_invariant r w : P w → P (serve r w).
Proof.
  intros Hw. destruct r; simpl.
  - by apply register_invariant.
  - done.
  - by apply create_todo_invariant.
  - revert w Hw. unfold main.read_todos, crud.get_todos. by repeat invariant_step.
  - revert w Hw. unfold main.read_todo, crud.get_todo. by repeat invariant_step.
  - revert w Hw. unfold main.update_todo.
    apply invariant_bind; [apply update_todo_invariant|]. intros ?. by repeat invariant_step.
  - revert w Hw. unfold main.delete_todo.
    apply invariant_bind; [apply delete_todo_invariant|]. intros ?. by repeat invariant_step.
  - by apply create_category_invariant.
  - revert w Hw. unfold main.read_categories, crud.get_categories. by repeat invariant_step.
  - revert w Hw. unfold main.get_recommendations, neo4j_client.get_todo_recommendations.
    by repeat invariant_step.
Qed.

Lemma evolves_invariant w w' : evolves w w' → P w → P w'.
Proof.
  induction 1 as [w|r w w' _ IH|now w w' _ IH Hnow|up w w' _ IH]; intros Hw.
  - done.
  - apply serve_invariant. by apply IH.
  - apply set_clock_P; [by apply IH|done].
  - apply set_neo4j_up_P. by apply IH.
Qed.

End routes.

(** *** The table of todos *)

Lemma Forall_filter_keep {A} (P Q : A → Prop) `{!∀ x, Decision (Q x)} (l : list A) :
  Forall P l → Forall P (filter Q l).
Proof.
  rewrite !Forall_forall. intros HP x Hx. apply HP.
  by apply list_elem_of_filter in Hx as [_ ?].
Qed.

Lemma todos_ok_same K w w' :
  todos (db w') = todos (db w) → todos_id_seq (db w') = todos_id_seq (db w) →
  todos_ok K w → todos_ok K w'.
Proof.
  unfold todos_ok, todos_pk, title_not_null. intros -> ->. done.
Qed.

Lemma insert_todo_todos_ok K title description priority due_date user_id :
  invariant (todos_ok K) (crud.insert_todo title description priority due_date user_id).
Proof.
  intros w ([Hnd Hlt] & Hnn & HK). unfold crud.insert_todo.
  case_decide as Hbad; [done|]. simpl.
  unfold todos_ok, todos_pk, title_not_null. simpl.
  split_and!.
  - rewrite fmap_app. simpl. apply NoDup_app. split_and!; [done| |apply NoDup_singleton].
    intros k Hk Hk'. apply list_elem_of_singleton in Hk' as ->.
    apply list_elem_of_fmap in Hk as (t & Hid & Ht).
    rewrite Forall_forall in Hlt. specialize (Hlt t Ht). lia.
  - apply Forall_app. split.
    + eapply Forall_impl; [exact Hlt|]. simpl. intros; lia.
    + apply Forall_singleton. simpl. lia.
  - apply Forall_app. split; [done|]. apply Forall_singleton. simpl.
    destruct title; [by eexists|]. exfalso. apply Hbad. by left.
  - intros k Hk. destruct (HK k Hk) as [Hseq Hnot]. split; [lia|].
    apply Forall_app. split; [done|]. apply Forall_singleton. simpl. lia.
Qed.

Lemma flush_todo_todos_ok K old new :
  models.Todo.id new = models.Todo.id old → invariant (todos_ok K) (crud.flush_todo old new).
Proof.
  intros Hid w ([Hnd Hlt] & Hnn & HK). unfold crud.flush_todo.
  case_decide; [done|]. case_decide as Htitle; [done|]. simpl.
  unfold todos_ok, todos_pk, title_not_null. simpl.
  set (f := λ t : models.Todo.t,
         if decide (models.Todo.id t = models.Todo.id old)
         then crud.touch (clock (db w)) new else t).
  assert (∀ t, models.Todo.id (f t) = models.Todo.id t) as Hf.
  { intros t. unfold f. case_decide; simpl; congruence. }
  assert (∀ (Q : Z → Prop), Forall (λ t, Q (models.Todo.id t)) (todos (db w)) →
            Forall (λ t, Q (models.Todo.id t)) (f <$> todos (db w))) as Hids.
  { intros Q HQ. apply Forall_fmap. eapply Forall_impl; [exact HQ|].
    intros t. simpl. by rewrite Hf. }
  split_and!.
  - rewrite <- list_fmap_compose.
    erewrite list_fmap_ext; [exact Hnd|]. intros i t _. simpl. apply Hf.
  - by apply (Hids (λ k, k < todos_id_seq (db w))).
  - apply Forall_fmap. eapply Forall_impl; [exact Hnn|]. intros t Ht. simpl.
    unfold f. case_decide; [|done]. simpl.
    destruct (models.Todo.title new); [by eexists|done].
  - intros k Hk. destruct (HK k Hk) as [Hseq Hnot]. split; [done|].
    by apply (Hids (λ k', k' ≠ k)).
Qed.

Lemma delete_row_todos_ok K old : invariant (todos_ok K) (crud.delete_row old).
Proof.
  intros w ([Hnd Hlt] & Hnn & HK). unfold crud.delete_row. simpl.
  unfold todos_ok, todos_pk, title_not_null. simpl.
  split_and!.
  - eapply sublist_NoDup; [exact Hnd|]. apply fmap_sublist, sublist_filter.
  - by apply Forall_filter_keep.
  - by apply Forall_filter_keep.
  - intros k Hk. destruct (HK k Hk) as [Hseq Hnot]. split; [done|].
    by apply Forall_filter_keep.
Qed.

(** Along every evolution the table keeps its primary key, its titles and
    the ids that were used up. *)
Lemma evolves_todos_ok `{!auth.Hasher} K w w' :
  evolves w w' → todos_ok K w → todos_ok K w'.
Proof.
  apply evolves_invariant.
  - intros username email hashed_password w0 Hw0. unfold crud.insert_user.
    case_decide; [done|]. by eapply todos_ok_same.
  - apply insert_todo_todos_ok.
  - apply flush_todo_todos_ok.
  - apply delete_row_todos_ok.
  - intros name color user_id w0 Hw0. unfold crud.insert_category.
    case_decide; [|done]. by eapply todos_ok_same.
  - intros user_id username email w0 Hw0.
    unfold neo4j_client.create_user_node, neo4j_client.write.
    destruct (neo4j_up w0); [|done]. by eapply todos_ok_same.
  - intros todo_id title user_id w0 Hw0.
    unfold neo4j_client.create_todo_node, neo4j_client.write.
    destruct (neo4j_up w0); [|done]. by eapply todos_ok_same.
  - intros category_id name user_id w0 Hw0.
    unfold neo4j_client.create_category_node, neo4j_client.write.
    destruct (neo4j_up w0); [|done]. by eapply todos_ok_same.
  - intros now w0 Hw0 _. by eapply todos_ok_same.
  - intros up w0 Hw0. by eapply todos_ok_same.
Qed.

Lemma reachable_todos_ok `{!auth.Hasher} w : reachable w → todos_ok (λ _, False) w.
Proof.
  intros (now & up & Hev). eapply evolves_todos_ok; [exact Hev|].
  unfold todos_ok, todos_pk, title_not_null. simpl.
  split_and!; [apply NoDup_nil_2|done..].
Qed.

(** ** Deleting a todo (C8) *)




(** ** No BELONGS_TO relationship (C9) *)

Lemma foldl_set_prop_rels {A} (f : graph.Graph → A → graph.Graph) (ns : list A) :
  (∀ g n, graph.rels (f g n) = graph.rels g) →
  ∀ g, graph.rels (foldl f g ns) = graph.rels g.
Proof.
  intros Hf. induction ns as [|n ns IH]; intros g; simpl; [done|]. by rewrite IH, Hf.
Qed.

Lemma create_user_node_rels user_id username email g :
  graph.rels (cypher.create_user_node user_id username email g) = graph.rels g.
Proof.
  unfold cypher.create_user_node.
  pose proof (merge_node_spec graph.User user_id g) as Hmerge.
  destruct (graph.merge_node graph.User user_id g) as [g1 us].
  destruct Hmerge as (_ & _ & Hrels & _).
  rewrite foldl_set_prop_rels; [done|]. by intros g0 n.
Qed.

Lemma create_category_node_rels category_id name user_id g r :
  r ∈ graph.rels (cypher.create_category_node category_id name user_id g) →
  r ∈ graph.rels g ∨ graph.rtype r = graph.CREATED.
Proof.
  unfold cypher.create_category_node.
  pose proof (merge_node_spec graph.Category category_id g) as Hmerge.
  destruct (graph.merge_node graph.Category category_id g) as [g1 cs].
  destruct Hmerge as (_ & _ & Hrels1 & _).
  simpl.
  set (g2 := foldl (λ g c, graph.set_prop (graph.nid c) "name"
                             (Some (graph.VStr name)) g) g1 cs).
  assert (graph.rels g2 = graph.rels g1) as Hrels2
    by (apply foldl_set_prop_rels; by intros g0 n).
  destruct (foldl_merge_rel graph.CREATED
              (c ← cs; u ← graph.match_nodes graph.User user_id g2; [(c, u)]) g2)
    as [_ Hrels3].
  intros Hr. apply Hrels3 in Hr as [Hr|(b & a & _ & ->)]; [|by right].
  left. by rewrite <- Hrels1, <- Hrels2.
Qed.

(** No route adds a BELONGS_TO relationship. *)
Lemma evolves_no_belongs_to `{!auth.Hasher} w w' :
  evolves w w' → no_belongs_to (neo4j w) → no_belongs_to (neo4j w').
Proof.
  apply (evolves_invariant (λ w, no_belongs_to (neo4j w))).
  - intros username email hashed_password w0 Hw0. unfold crud.insert_user.
    by case_decide.
  - intros title description priority due_date user_id w0 Hw0. unfold crud.insert_todo.
    by case_decide.
  - intros old new _ w0 Hw0. unfold crud.flush_todo. by repeat case_decide.
  - by intros old w0 Hw0.
  - intros name color user_id w0 Hw0. unfold crud.insert_category. by case_decide.
  - intros user_id username email w0 Hw0.
    unfold neo4j_client.create_user_node, neo4j_client.write.
    destruct (neo4j_up w0); [|done]. simpl.
    unfold no_belongs_to. by rewrite create_user_node_rels.
  - intros todo_id title user_id w0 Hw0.
    unfold neo4j_client.create_todo_node, neo4j_client.write.
    destruct (neo4j_up w0); [|done]. simpl.
    destruct (create_todo_node_spec todo_id title user_id (neo4j w0)) as (_&_&_&_&_& Hrels).
    apply Forall_forall. intros r Hr. unfold no_belongs_to in Hw0.
    rewrite Forall_forall in Hw0.
    apply Hrels in Hr as [Hr| ->]; [by apply Hw0|done].
  - intros category_id name user_id w0 Hw0.
    unfold neo4j_client.create_category_node, neo4j_client.write.
    destruct (neo4j_up w0); [|done]. simpl.
    apply Forall_forall. intros r Hr. unfold no_belongs_to in Hw0.
    rewrite Forall_forall in Hw0.
    apply create_category_node_rels in Hr as [Hr| ->]; [by apply Hw0|done].
  - by intros now w0 Hw0 _.
  - by intros up w0 Hw0.
Qed.

(** Without a BELONGS_TO relationship the traversal has no row. *)
Lemma no_belongs_to_no_rows g user_id :
  no_belongs_to g → cypher.get_todo_recommendations user_id g = [].
Proof.
  intros Hno. unfold cypher.get_todo_recommendations.
  destruct (cypher.recommendation_rows user_id g) as [|[other_todo c] rows] eqn:Hrows; [done|].
  exfalso.
  assert ((other_todo, c) ∈ cypher.recommendation_rows user_id g) as Hin
    by (rewrite Hrows; apply elem_of_cons; by left).
  apply elem_of_recommendation_rows in Hin as [(u & t & _ & _ & (_ & _ & _ & _ & Hrel)) _].
  unfold no_belongs_to in Hno. rewrite Forall_forall in Hno. by apply Hno in Hrel.
Qed.

(** C9: no route runs [link_todo_to_category]; in every world that comes
    from two empty stores through the service's routes, the graph has no
    BELONGS_TO relationship, and the traversal answers the empty list for
    every user: the client and the route return [[]] whenever the statement
    runs at all. *)
Theorem reachable_no_recommendations `{!auth.Hasher} (w : World) :
  reachable w →
  no_belongs_to (neo4j w) ∧
  ∀ current_user,
    cypher.get_todo_recommendations (models.User.id current_user) (neo4j w) = [] ∧
    neo4j_client.get_todo_recommendations (models.User.id current_user) w
      = (if neo4j_up w then Returned [] else Raised ServiceUnavailable, w) ∧
    main.get_recommendations current_user w
      = (if neo4j_up w then Returned [] else Raised ServiceUnavailable, w).
Proof.
  intros (now & up & Hev).
  assert (no_belongs_to (neo4j w)) as Hno.
  { eapply evolves_no_belongs_to; [exact Hev|]. by apply Forall_nil. }
  split; [done|]. intros current_user.
  pose proof (no_belongs_to_no_rows _ (models.User.id current_user) Hno) as Hnil.
  split; [done|].
  unfold main.get_recommendations, neo4j_client.get_todo_recommendations. unfold_M.
  rewrite Hnil. by destruct (neo4j_up w).
Qed.

(** After two registrations and two todos nobody is recommended
    anything. *)
Lemma reachable_no_recommendations_witness :
  no_belongs_to (neo4j example.two_todos) ∧
  ∀ current_user,
    cypher.get_todo_recommendations (models.User.id current_user) (neo4j example.two_todos)
      = [] ∧
    neo4j_client.get_todo_recommendations (models.User.id current_user) example.two_todos
      = (Returned [], example.two_todos) ∧
    main.get_recommendations current_user example.two_todos
      = (Returned [], example.two_todos).
Proof.
  apply (@reachable_no_recommendations example.hasher example.two_todos).
  exists 0, true. unfold example.two_todos, example.two_users.
  repeat apply evolves_serve. apply evolves_refl.
Defined.

(** With BELONGS_TO relationships in the graph the traversal does answer:
    each of the two users is recommended the other's todo. *)
Lemma linked_recommendations :
  cypher.get_todo_recommendations 1 example.linked
    = [(Some (graph.VStr "Ship release"), Some (graph.VStr "Work"))] ∧
  cypher.get_todo_recommendations 2 example.linked
    = [(Some (graph.VStr "Write report"), Some (graph.VStr "Work"))].
Proof. split; vm_compute; reflexivity. Qed.

(** ** The merge key along the service *)

Lemma merge_key_nodes g g' :
  graph.nodes g' = graph.nodes g → merge_key g → merge_key g'.
Proof. intros Hn Hg l k. by rewrite (match_nodes_nodes l k g g' Hn). Qed.

Lemma merge_key_merge_node l k g : merge_key g → merge_key (graph.merge_node l k g).1.
Proof.
  intros Hg. unfold graph.merge_node.
  destruct (graph.match_nodes l k g) as [|n ns] eqn:Hm; [|done].
  simpl. intros l' k'. unfold graph.match_nodes. simpl. rewrite filter_app, length_app.
  destruct (decide ((l', k') = (l, k))) as [Heq|Hne].
  - injection Heq as -> ->. unfold graph.match_nodes in Hm. rewrite Hm. simpl.
    etrans; [apply length_filter|]. simpl. lia.
  - rewrite filter_cons_False, filter_nil;
      [specialize (Hg l' k'); unfold graph.match_nodes in Hg; simpl; lia|].
    intros [Hl Hk]. simpl in *. rewrite lookup_singleton_eq in Hk. congruence.
Qed.

Lemma merge_key_set_prop x key v g :
  key ≠ "id" → merge_key g → merge_key (graph.set_prop x key v g).
Proof.
  intros Hkey Hg l k. rewrite match_nodes_set_prop by done. by rewrite length_fmap.
Qed.

Lemma merge_key_foldl {A} (f : graph.Graph → A → graph.Graph) (xs : list A) :
  (∀ g x, merge_key g → merge_key (f g x)) →
  ∀ g, merge_key g → merge_key (foldl f g xs).
Proof.
  intros Hf. induction xs as [|x xs IH]; intros g Hg; simpl; [done|]. by apply IH, Hf.
Qed.

Lemma merge_key_merge_rel a ty b g : merge_key g → merge_key (graph.merge_rel a ty b g).
Proof. apply merge_key_nodes. unfold graph.merge_rel. by case_decide. Qed.

Lemma create_user_node_merge_key user_id username email g :
  merge_key g → merge_key (cypher.create_user_node user_id username email g).
Proof.
  intros Hg. unfold cypher.create_user_node.
  pose proof (merge_key_merge_node graph.User user_id g Hg) as Hg1.
  destruct (graph.merge_node graph.User user_id g) as [g1 us]. simpl in Hg1.
  apply merge_key_foldl; [|done]. intros g0 u Hg0. by repeat apply merge_key_set_prop.
Qed.

Lemma create_todo_node_merge_key todo_id title user_id g :
  merge_key g → merge_key (cypher.create_todo_node todo_id title user_id g).
Proof.
  intros Hg. unfold cypher.create_todo_node.
  pose proof (merge_key_merge_node graph.Todo todo_id g Hg) as Hg1.
  destruct (graph.merge_node graph.Todo todo_id g) as [g1 ts]. simpl in Hg1.
  apply merge_key_foldl; [intros g0 [t u] Hg0; by apply merge_key_merge_rel|].
  apply merge_key_foldl; [|done]. intros g0 t Hg0. by apply merge_key_set_prop.
Qed.

Lemma create_category_node_merge_key category_id name user_id g :
  merge_key g → merge_key (cypher.create_category_node category_id name user_id g).
Proof.
  intros Hg. unfold cypher.create_category_node.
  pose proof (merge_key_merge_node graph.Category category_id g Hg) as Hg1.
  destruct (graph.merge_node graph.Category category_id g) as [g1 cs]. simpl in Hg1.
  apply merge_key_foldl; [intros g0 [c u] Hg0; by apply merge_key_merge_rel|].
  apply merge_key_foldl; [|done]. intros g0 c Hg0. by apply merge_key_set_prop.
Qed.

(** From two empty stores the service never has two nodes under one label
    and id. *)
Lemma reachable_merge_key `{!auth.Hasher} w : reachable w → merge_key (neo4j w).
Proof.
  intros (now & up & Hev).
  apply (evolves_invariant (λ w, merge_key (neo4j w))) with (w := initial now up);
    [..|done|].
  - intros username email hashed_password w0 Hw0. unfold crud.insert_user. by case_decide.
  - intros title description priority due_date user_id w0 Hw0. unfold crud.insert_todo.
    by case_decide.
  - intros old new _ w0 Hw0. unfold crud.flush_todo. by repeat case_decide.
  - by intros old w0 Hw0.
  - intros name color user_id w0 Hw0. unfold crud.insert_category. by case_decide.
  - intros user_id username email w0 Hw0.
    unfold neo4j_client.create_user_node, neo4j_client.write.
    destruct (neo4j_up w0); [|done]. by apply create_user_node_merge_key.
  - intros todo_id title user_id w0 Hw0.
    unfold neo4j_client.create_todo_node, neo4j_client.write.
    destruct (neo4j_up w0); [|done]. by apply create_todo_node_merge_key.
  - intros category_id name user_id w0 Hw0.
    unfold neo4j_client.create_category_node, neo4j_client.write.
    destruct (neo4j_up w0); [|done]. by apply create_category_node_merge_key.
  - by intros now' w0 Hw0 _.
  - by intros up' w0 Hw0.
  - intros l k. simpl. lia.
Qed.

(** * Further properties of the code *)

(** ** Registration and lookup *)

Lemma filter_nil_not_Exists {A} (P : A → Prop) `{!∀ x, Decision (P x)} (l : list A) :
  ¬ Exists P l → filter P l = [].
Proof.
  intros Hno. apply (head_filter_None P) in Hno.
  by destruct (filter P l).
Qed.

(** What [register] answers and leaves behind, by cases. *)
Lemma register_cases `{!auth.Hasher} user w :
  (Exists (λ u, models.User.username u = schemas.UserCreate.username user) (users (db w)) ∧
   main.register user w = (Raised (HTTPException 400 "Username already registered"), w)) ∨
  (Exists (λ u, models.User.email u = schemas.UserCreate.email user) (users (db w)) ∧
   main.register user w = (Raised (HTTPException 400 "Email already registered"), w)) ∨
  (¬ Exists (λ u, models.User.username u = schemas.UserCreate.username user) (users (db w)) ∧
   ¬ Exists (λ u, models.User.email u = schemas.UserCreate.email user) (users (db w)) ∧
   let row := models.User.mk (users_id_seq (db w)) (schemas.UserCreate.username user)
                (schemas.UserCreate.email user)
                (auth.get_password_hash (schemas.UserCreate.password user)) (Some true)
                (clock (db w)) in
   let d' := mkDatabase (users (db w) ++ [row]) (todos (db w)) (categories (db w))
               (users_id_seq (db w) + 1) (todos_id_seq (db w)) (categories_id_seq (db w))
               (clock (db w)) in
   main.register user w =
   if neo4j_up w
   then (Returned row,
         mkWorld d' (cypher.create_user_node (models.User.id row) (models.User.username row)
                       (models.User.email row) (neo4j w)) true)
   else (Raised ServiceUnavailable, mkWorld d' (neo4j w) false)).
Proof.
  rewrite register_unfold.
  destruct (decide (Exists _ (users (db w)))) as [Hu|Hu]; [by left|].
  destruct (decide (Exists _ (users (db w)))) as [He|He]; [right; by left|].
  right; right. split; [done|]. split; [done|]. simpl.
  unfold crud.create_user, crud.insert_user, neo4j_client.create_user_node. unfold_M.
  rewrite decide_False; last first.
  { intros Hex. apply Exists_exists in Hex as (u & Hin & [?|?]).
    - apply Hu. apply Exists_exists. eauto.
    - apply He. apply Exists_exists. eauto. }
  simpl. by destruct (neo4j_up w) eqn:Hup.
Qed.

(** X1: a registration that returns stored the user as the last row of
    [users], with the name and address of the request, the digest of the
    password and [is_active] true, and both lookups now find that row. *)
Theorem register_then_lookup `{!auth.Hasher} (w w' : World) (user : schemas.UserCreate.t)
    (u : models.User.t) :
  main.register user w = (Returned u, w') →
  models.User.username u = schemas.UserCreate.username user ∧
  models.User.email u = schemas.UserCreate.email user ∧
  models.User.hashed_password u = auth.get_password_hash (schemas.UserCreate.password user) ∧
  models.User.is_active u = Some true ∧
  users (db w') = users (db w) ++ [u] ∧
  crud.get_user_by_username (schemas.UserCreate.username user) w' = (Returned (Some u), w') ∧
  crud.get_user_by_email (schemas.UserCreate.email user) w' = (Returned (Some u), w').
Proof.
  intros Hreg.
  destruct (register_cases user w) as [[_ Hc]|[[_ Hc]|(Hu & He & Hc)]];
    [rewrite Hc in Hreg; discriminate..|].
  cbv zeta in Hc. rewrite Hc in Hreg.
  destruct (neo4j_up w); [|discriminate]. injection Hreg as <- <-. simpl.
  split_and!; try done.
  - unfold crud.get_user_by_username. unfold_M. simpl.
    rewrite filter_app, (filter_nil_not_Exists _ _ Hu). simpl.
    by rewrite filter_cons_True.
  - unfold crud.get_user_by_email. unfold_M. simpl.
    rewrite filter_app, (filter_nil_not_Exists _ _ He). simpl.
    by rewrite filter_cons_True.
Qed.

Lemma register_then_lookup_witness :
  crud.get_user_by_username "alice"
    (@main.register example.hasher example.alice (initial 0 true)).2
  = (Returned (Some example.alice_row),
     (@main.register example.hasher example.alice (initial 0 true)).2) ∧
  crud.get_user_by_email "alice@example.com"
    (@main.register example.hasher example.alice (initial 0 true)).2
  = (Returned (Some example.alice_row),
     (@main.register example.hasher example.alice (initial 0 true)).2).
Proof.
  destruct (@register_then_lookup example.hasher (initial 0 true)
              (@main.register example.hasher example.alice (initial 0 true)).2
              example.alice example.alice_row) as (_ & _ & _ & _ & _ & Hname & Hmail).
  { vm_compute. reflexivity. }
  split; [exact Hname|exact Hmail].
Defined.


(** ** The relational schema along the service *)

(** A property that the five writing operations of crud.py keep is kept
    by every route, and so along every evolution. *)
Section service.
Context `{!auth.Hasher}.
Variable P : World → Prop.

Hypothesis create_user_P : ∀ user, invariant P (crud.create_user user).
Hypothesis create_todo_P : ∀ todo user_id, invariant P (crud.create_todo todo user_id).
Hypothesis update_todo_P : ∀ todo_id todo_update user_id,
  invariant P (crud.update_todo todo_id todo_update user_id).
Hypothesis delete_todo_P : ∀ todo_id user_id, invariant P (crud.delete_todo todo_id user_id).
Hypothesis create_category_P : ∀ category user_id,
  invariant P (crud.create_category category user_id).
Hypothesis clock_P : ∀ now w, P w → clock (db w) ≤ now → P (set_clock now w).
Hypothesis neo4j_up_P : ∀ up w, P w → P (set_neo4j_up up w).

Lemma serve_keeps r w : P w → P (serve r w).
Proof.
  intros Hw. destruct r; simpl.
  - revert w Hw. unfold main.register.
    apply invariant_bind;
      [unfold crud.get_user_by_username; by repeat invariant_step|].
    intros [?|]; [apply invariant_raise|].
    apply invariant_bind;
      [unfold crud.get_user_by_email; by repeat invariant_step|].
    intros [?|]; [apply invariant_raise|apply create_user_P].
  - done.
  - by apply create_todo_P.
  - revert w Hw. unfold main.read_todos, crud.get_todos. by repeat invariant_step.
  - revert w Hw. unfold main.read_todo, crud.get_todo. by repeat invariant_step.
  - revert w Hw. unfold main.update_todo.
    apply invariant_bind; [apply update_todo_P|]. intros ?. by repeat invariant_step.
  - revert w Hw. unfold main.delete_todo.
    apply invariant_bind; [apply delete_todo_P|]. intros ?. by repeat invariant_step.
  - by apply create_category_P.
  - revert w Hw. unfold main.read_categories, crud.get_categories. by repeat invariant_step.
  - revert w Hw. unfold main.get_recommendations, neo4j_client.get_todo_recommendations.
    by repeat invariant_step.
Qed.

Lemma evolves_keeps w w' : evolves w w' → P w → P w'.
Proof.
  induction 1 as [w|r w w' _ IH|now w w' _ IH Hnow|up w w' _ IH]; intros Hw.
  - done.
  - apply serve_keeps. by apply IH.
  - apply clock_P; [by apply IH|done].
  - apply neo4j_up_P. by apply IH.
Qed.

End service.

(** A write to the graph keeps what only speaks of the database. *)
Lemma invariant_write_db (Q : Database → Prop) statement :
  invariant (λ w, Q (db w)) (neo4j_client.write statement).
Proof. intros w Hw. unfold neo4j_client.write. by destruct (neo4j_up w). Qed.

Lemma Exists_app_l {A} (P : A → Prop) (l k : list A) : Exists P l → Exists P (l ++ k).
Proof. intros. apply Exists_app. by left. Qed.

Lemma insert_user_owners_ok username email hashed_password :
  invariant (λ w, owners_ok (db w)) (crud.insert_user username email hashed_password).
Proof.
  intros w ((Hid & Hlt & Hname & Hmail) & [Hcn Hcl] & [Hft Hfc]). unfold crud.insert_user.
  case_decide as Hex; [done|]. simpl.
  assert (∀ u, u ∈ users (db w) →
               models.User.username u ≠ username ∧ models.User.email u ≠ email) as Hfresh.
  { intros u Hu. split; intros Heq; apply Hex, Exists_exists; eauto. }
  unfold owners_ok, users_ok, categories_pk, foreign_keys. simpl.
  split_and!; try done.
  - rewrite fmap_app. apply NoDup_app. split_and!; [done| |apply NoDup_singleton].
    intros k Hk Hk'. apply list_elem_of_singleton in Hk' as ->.
    apply list_elem_of_fmap in Hk as (u & Hk & Hu). simpl in Hk.
    rewrite Forall_forall in Hlt. specialize (Hlt u Hu). lia.
  - apply Forall_app. split.
    + eapply Forall_impl; [exact Hlt|]. simpl. intros; lia.
    + apply Forall_singleton. simpl. lia.
  - rewrite fmap_app. apply NoDup_app. split_and!; [done| |apply NoDup_singleton].
    intros k Hk Hk'. apply list_elem_of_singleton in Hk' as ->.
    apply list_elem_of_fmap in Hk as (u & Hk & Hu). simpl in Hk.
    destruct (Hfresh u Hu). congruence.
  - rewrite fmap_app. apply NoDup_app. split_and!; [done| |apply NoDup_singleton].
    intros k Hk Hk'. apply list_elem_of_singleton in Hk' as ->.
    apply list_elem_of_fmap in Hk as (u & Hk & Hu). simpl in Hk.
    destruct (Hfresh u Hu). congruence.
  - eapply Forall_impl; [exact Hft|]. intros t. apply Exists_app_l.
  - eapply Forall_impl; [exact Hfc|]. intros c. apply Exists_app_l.
Qed.

Lemma insert_todo_owners_ok title description priority due_date user_id :
  invariant (λ w, owners_ok (db w))
    (crud.insert_todo title description priority due_date user_id).
Proof.
  intros w (Hu & Hcat & [Hft Hfc]). unfold crud.insert_todo.
  case_decide as Hbad; [done|]. simpl.
  unfold owners_ok, foreign_keys. simpl. split_and!; try done.
  apply Forall_app. split; [done|]. apply Forall_singleton. simpl.
  destruct (decide (Exists (λ u, models.User.id u = user_id) (users (db w)))); [done|].
  exfalso. apply Hbad. by right.
Qed.

Lemma insert_category_owners_ok name color user_id :
  invariant (λ w, owners_ok (db w)) (crud.insert_category name color user_id).
Proof.
  intros w (Hu & [Hnd Hlt] & [Hft Hfc]). unfold crud.insert_category.
  case_decide as Hex; [|done]. simpl.
  unfold owners_ok, categories_pk, foreign_keys. simpl. split_and!; try done.
  - rewrite fmap_app. apply NoDup_app. split_and!; [done| |apply NoDup_singleton].
    intros k Hk Hk'. apply list_elem_of_singleton in Hk' as ->.
    apply list_elem_of_fmap in Hk as (c & Hk & Hc). simpl in Hk.
    rewrite Forall_forall in Hlt. specialize (Hlt c Hc). lia.
  - apply Forall_app. split.
    + eapply Forall_impl; [exact Hlt|]. simpl. intros; lia.
    + apply Forall_singleton. simpl. lia.
  - apply Forall_app. split; [done|]. by apply Forall_singleton.
Qed.

Lemma update_todo_owners_ok todo_id todo_update user_id :
  invariant (λ w, owners_ok (db w)) (crud.update_todo todo_id todo_update user_id).
Proof.
  intros w Hw. unfold crud.update_todo, mbind, M_bind.
  destruct (crud.get_todo todo_id user_id w) as [[[t|]|e] w1] eqn:Hget; simpl;
    try (unfold crud.get_todo in Hget; unfold_M; by simplify_eq).
  apply get_todo_Some in Hget as (-> & Hin & _ & _).
  destruct (foldl_setattr t todo_update) as (_&_&_&_&_& Hid & Huid & _).
  set (new := foldl crud.setattr t _) in *.
  unfold fmap, M_fmap, crud.flush_todo.
  case_decide; [done|]. case_decide; [done|]. simpl.
  destruct Hw as (Hu & Hcat & [Hft Hfc]).
  unfold owners_ok, foreign_keys. simpl. split_and!; try done.
  apply Forall_fmap. rewrite Forall_forall in Hft. apply Forall_forall. intros t0 Ht0. simpl.
  case_decide; [|by apply Hft]. simpl. rewrite Huid. by apply Hft.
Qed.

Lemma delete_todo_owners_ok todo_id user_id :
  invariant (λ w, owners_ok (db w)) (crud.delete_todo todo_id user_id).
Proof.
  unfold crud.delete_todo, crud.get_todo. repeat invariant_step.
  intros w (Hu & Hcat & [Hft Hfc]). unfold crud.delete_row. simpl.
  unfold owners_ok, foreign_keys. simpl. split_and!; try done.
  by apply Forall_filter_keep.
Qed.

Lemma evolves_owners_ok `{!auth.Hasher} w w' :
  evolves w w' → owners_ok (db w) → owners_ok (db w').
Proof.
  apply (evolves_keeps (λ w, owners_ok (db w))).
  - intros user. unfold crud.create_user, neo4j_client.create_user_node.
    repeat invariant_step;
      [apply insert_user_owners_ok|apply (invariant_write_db owners_ok)].
  - intros todo user_id. unfold crud.create_todo, neo4j_client.create_todo_node.
    repeat invariant_step;
      [apply insert_todo_owners_ok|apply (invariant_write_db owners_ok)].
  - apply update_todo_owners_ok.
  - apply delete_todo_owners_ok.
  - intros category user_id. unfold crud.create_category, neo4j_client.create_category_node.
    repeat invariant_step;
      [apply insert_category_owners_ok|apply (invariant_write_db owners_ok)].
  - by intros now w0 Hw0 _.
  - by intros up w0 Hw0.
Qed.

(** X3: in every world the service reaches from two empty stores the
    relational schema of models.py holds: ids, usernames and emails of
    users are unique, ids of todos and of categories are unique and below
    their sequences, no stored todo has a NULL title, and the owner of
    every todo and of every category is a stored user. *)
Theorem reachable_schema_ok `{!auth.Hasher} (w : World) :
  reachable w → schema_ok (db w).
Proof.
  intros (now & up & Hev).
  assert (owners_ok (db w)) as (Hu & Hc & Hfk).
  { eapply evolves_owners_ok; [exact Hev|].
    unfold owners_ok, users_ok, categories_pk, foreign_keys. simpl.
    split_and!; try done; apply NoDup_nil_2. }
  assert (todos_ok (λ _, False) w) as (Hpk & Hnn & _).
  { eapply evolves_todos_ok; [exact Hev|].
    unfold todos_ok, todos_pk, title_not_null. simpl.
    split_and!; [apply NoDup_nil_2|done..]. }
  done.
Qed.

Lemma reachable_schema_ok_witness : schema_ok (db example.two_todos).
Proof.
  apply (@reachable_schema_ok example.hasher example.two_todos).
  exists 0, true. unfold example.two_todos, example.two_users.
  repeat apply evolves_serve. apply evolves_refl.
Defined.

(** ** Todos: insert, list, look up *)

(** What a [create_todo] that returned has done. *)
Lemma create_todo_Returned todo user_id w t w' :
  crud.create_todo todo user_id w = (Returned t, w') →
  neo4j_up w = true ∧
  Exists (λ u, models.User.id u = user_id) (users (db w)) ∧
  t = models.Todo.mk (todos_id_seq (db w)) (Some (schemas.TodoCreate.title todo))
        (schemas.TodoCreate.description todo) (Some false)
        (Some (schemas.TodoCreate.priority todo)) (clock (db w)) None
        (schemas.TodoCreate.due_date todo) user_id ∧
  w' = mkWorld
         (mkDatabase (users (db w)) (todos (db w) ++ [t]) (categories (db w))
            (users_id_seq (db w)) (todos_id_seq (db w) + 1) (categories_id_seq (db w))
            (clock (db w)))
         (cypher.create_todo_node (models.Todo.id t) (models.Todo.title t) user_id (neo4j w))
         true.
Proof.
  unfold crud.create_todo, crud.insert_todo, neo4j_client.create_todo_node. unfold_M.
  case_decide as Hbad; [done|]. simpl.
  destruct (neo4j_up w) eqn:Hup; [|done]. intros Heq. injection Heq as <- <-.
  split_and!; try done.
  destruct (decide (Exists (λ u, models.User.id u = user_id) (users (db w)))); [done|].
  exfalso. apply Hbad. by right.
Qed.

(** X4: a todo that [create_todo] returned has the next id of the
    sequence, the fields of the request, [completed] false, no
    [updated_at], the clock as [created_at] and the caller as owner; it is
    the last row of the table, and the scoped lookup under its id and owner
    finds exactly it. *)
Theorem create_todo_then_get (w w' : World) (todo : schemas.TodoCreate.t) (user_id : Z)
    (t : models.Todo.t) :
  todos_pk (db w) →
  crud.create_todo todo user_id w = (Returned t, w') →
  t = models.Todo.mk (todos_id_seq (db w)) (Some (schemas.TodoCreate.title todo))
        (schemas.TodoCreate.description todo) (Some false)
        (Some (schemas.TodoCreate.priority todo)) (clock (db w)) None
        (schemas.TodoCreate.due_date todo) user_id ∧
  todos (db w') = todos (db w) ++ [t] ∧
  todos_pk (db w') ∧
  crud.get_todo (models.Todo.id t) user_id w' = (Returned (Some t), w').
Proof.
  intros [Hnd Hlt] Hcall.
  destruct (create_todo_Returned _ _ _ _ _ Hcall) as (Hup & Huser & Ht & Hw').
  split; [done|]. subst w'. simpl. split; [done|].
  assert (models.Todo.id t = todos_id_seq (db w)) as Hid by (by rewrite Ht).
  assert (∀ t0, t0 ∈ todos (db w) → models.Todo.id t0 ≠ models.Todo.id t) as Hfresh.
  { intros t0 Ht0. rewrite Forall_forall in Hlt. specialize (Hlt t0 Ht0). simpl in Hlt. lia. }
  split.
  - unfold todos_pk. simpl. split.
    + rewrite fmap_app. apply NoDup_app. split_and!; [done| |apply NoDup_singleton].
      intros k Hk Hk'. apply list_elem_of_singleton in Hk' as ->.
      apply list_elem_of_fmap in Hk as (t0 & Hk & Ht0). by apply (Hfresh t0).
    + apply Forall_app. split.
      * eapply Forall_impl; [exact Hlt|]. simpl. intros; lia.
      * apply Forall_singleton. lia.
  - unfold crud.get_todo. unfold_M. simpl. rewrite filter_app.
    rewrite (filter_nil_not_Exists _ (todos (db w))).
    + simpl. rewrite filter_cons_True; [done|]. by rewrite Ht.
    + intros Hex. apply Exists_exists in Hex as (t0 & Ht0 & Hk & _). by apply (Hfresh t0).
Qed.

Lemma create_todo_then_get_witness :
  crud.get_todo 3 1 (crud.create_todo example.write_report 1 example.two_todos).2
  = (Returned (Some (models.Todo.mk 3 (Some "Write report") None (Some false)
                       (Some "medium") 0 None None 1)),
     (crud.create_todo example.write_report 1 example.two_todos).2).
Proof.
  destruct (create_todo_then_get example.two_todos
              (crud.create_todo example.write_report 1 example.two_todos).2
              example.write_report 1
              (models.Todo.mk 3 (Some "Write report") None (Some false)
                 (Some "medium") 0 None None 1)) as (_ & _ & _ & Hget).
  - apply (bool_decide_unpack _). vm_compute. exact I.
  - vm_compute. reflexivity.
  - exact Hget.
Defined.




(** ** Deleting and updating leave the rest alone *)

(** Under the primary key, the rows that share the id of a stored row are
    that row. *)
Lemma todos_pk_same_id d t t0 :
  todos_pk d → t ∈ todos d → t0 ∈ todos d → models.Todo.id t0 = models.Todo.id t → t0 = t.
Proof. intros [Hnd _] Ht Ht0 Hid. by eapply NoDup_fmap_eq. Qed.

Lemma filter_ext_in {A} (P Q : A → Prop) `{!∀ x, Decision (P x), !∀ x, Decision (Q x)}
    (l : list A) :
  (∀ x, x ∈ l → P x ↔ Q x) → filter P l = filter Q l.
Proof.
  induction l as [|x l IH]; intros HPQ; [done|].
  rewrite !filter_cons.
  assert (filter P l = filter Q l) as ->.
  { apply IH. intros y Hy. apply HPQ. by right. }
  destruct (decide (P x)) as [HP|HP], (decide (Q x)) as [HQ|HQ]; try done.
  - exfalso. apply HQ, HPQ; [by left|done].
  - exfalso. apply HP, HPQ; [by left|done].
Qed.

(** Dropping the rows of one id keeps the rows a filter selects, when the
    filter selects none of that id. *)
Lemma filter_after_delete (P : models.Todo.t → Prop) `{!∀ x, Decision (P x)} k
    (l : list models.Todo.t) :
  (∀ t, t ∈ l → P t → models.Todo.id t ≠ k) →
  filter P (filter (λ t, models.Todo.id t ≠ k) l) = filter P l.
Proof.
  intros HP. rewrite list_filter_filter. apply filter_ext_in. intros t Ht.
  split; [by intros [? _]|]. intros Hpt. split; [done|]. by apply HP.
Qed.

(** Rewriting the rows of one id keeps the rows a filter selects, when the
    filter selects neither the old rows of that id nor the new row. *)
Lemma filter_after_rewrite (P : models.Todo.t → Prop) `{!∀ x, Decision (P x)} k row
    (l : list models.Todo.t) :
  ¬ P row → (∀ t, t ∈ l → P t → models.Todo.id t ≠ k) →
  filter P ((λ t, if decide (models.Todo.id t = k) then row else t) <$> l) = filter P l.
Proof.
  intros Hrow HP. induction l as [|t l IH]; [done|].
  rewrite fmap_cons, !filter_cons.
  rewrite IH by (intros t0 Ht0; apply HP; by right).
  destruct (decide (models.Todo.id t = k)) as [Hk|Hk].
  - rewrite decide_False by done. rewrite decide_False; [done|].
    intros Hpt. by apply (HP t); [left|..].
  - done.
Qed.

(** X7: deleting a todo the user owns removes that one row and nothing
    else: the other rows of the table stay in their order, users,
    categories and sequences stay, every lookup under another id and every
    listing of another user answers what it answered before, the lookup
    under the deleted id misses, and a second delete answers [None] and
    changes nothing. *)
Theorem delete_todo_frame (w : World) (todo_id user_id : Z) (t : models.Todo.t) :
  todos_pk (db w) →
  crud.get_todo todo_id user_id w = (Returned (Some t), w) →
  ∃ w',
    crud.delete_todo todo_id user_id w = (Returned (Some t), w') ∧
    todos (db w') = filter (λ t0, t0 ≠ t) (todos (db w)) ∧
    users (db w') = users (db w) ∧ categories (db w') = categories (db w) ∧
    todos_id_seq (db w') = todos_id_seq (db w) ∧
    (∀ k u, k ≠ todo_id → (crud.get_todo k u w').1 = (crud.get_todo k u w).1) ∧
    (∀ u skip limit, u ≠ user_id →
       (crud.get_todos u skip limit w').1 = (crud.get_todos u skip limit w).1) ∧
    crud.get_todo todo_id user_id w' = (Returned None, w') ∧
    crud.delete_todo todo_id user_id w' = (Returned None, w').
Proof.
  intros Hpk Hget.
  destruct (get_todo_Some _ _ _ _ _ Hget) as (_ & Hin & Hid & Huid). subst todo_id.
  unfold crud.delete_todo at 1. unfold mbind, M_bind. rewrite Hget. simpl.
  eexists. split; [reflexivity|]. simpl.
  assert (crud.get_todo (models.Todo.id t) user_id
            (crud.delete_row t w).2 = (Returned None, (crud.delete_row t w).2)) as Hgone.
  { apply get_todo_absent. simpl. intros t0 Ht0.
    by apply list_elem_of_filter in Ht0 as [? _]. }
  split_and!; try done.
  - apply filter_ext_in. intros t0 Ht0. split.
    + intros Hne ->. done.
    + intros Hne Heq. apply Hne. by eapply todos_pk_same_id.
  - intros k u Hk. unfold crud.get_todo. unfold_M. simpl.
    rewrite filter_after_delete; [reflexivity|]. intros t0 _ [-> _]. done.
  - intros u skip limit Hu. unfold crud.get_todos. unfold_M. simpl.
    rewrite filter_after_delete; [by case_decide|]. intros t0 Ht0 Hown Heq.
    apply Hu. rewrite <- Hown, <- Huid. f_equal. by eapply todos_pk_same_id.
  - unfold crud.delete_todo, mbind, M_bind. simpl in Hgone. by rewrite Hgone.
Qed.

Lemma delete_todo_frame_witness :
  ∃ w',
    crud.delete_todo 1 1 example.two_todos = (Returned (Some example.alice_todo), w') ∧
    todos (db w') = filter (λ t0, t0 ≠ example.alice_todo) (todos (db example.two_todos)) ∧
    users (db w') = users (db example.two_todos) ∧
    categories (db w') = categories (db example.two_todos) ∧
    todos_id_seq (db w') = todos_id_seq (db example.two_todos) ∧
    (∀ k u, k ≠ 1 → (crud.get_todo k u w').1 = (crud.get_todo k u example.two_todos).1) ∧
    (∀ u skip limit, u ≠ 1 →
       (crud.get_todos u skip limit w').1
       = (crud.get_todos u skip limit example.two_todos).1) ∧
    crud.get_todo 1 1 w' = (Returned None, w') ∧
    crud.delete_todo 1 1 w' = (Returned None, w').
Proof.
  apply (delete_todo_frame example.two_todos 1 1 example.alice_todo).
  - apply (bool_decide_unpack _). vm_compute. exact I.
  - vm_compute. reflexivity.
Defined.

Lemma rewrite_other_ids k row (l : list models.Todo.t) :
  (∀ t, t ∈ l → models.Todo.id t ≠ k) →
  (λ t, if decide (models.Todo.id t = k) then row else t) <$> l = l.
Proof.
  intros Hl. induction l as [|t l IH]; [done|].
  rewrite fmap_cons, IH by (intros t0 Ht0; apply Hl; by right).
  rewrite decide_False; [done|]. apply Hl. by left.
Qed.

(** Under the primary key, rewriting the row of an id leaves one row of
    that id: the new one. *)
Lemma filter_rewritten t row (l : list models.Todo.t) :
  NoDup (models.Todo.id <$> l) → t ∈ l →
  filter (λ t0, models.Todo.id t0 = models.Todo.id t)
    ((λ t0, if decide (models.Todo.id t0 = models.Todo.id t) then row else t0) <$> l)
  = filter (λ t0, models.Todo.id t0 = models.Todo.id t) [row].
Proof.
  induction l as [|a l IH]; intros Hnd Hin; [by apply elem_of_nil in Hin|].
  rewrite fmap_cons in Hnd. apply NoDup_cons in Hnd as [Ha Hnd].
  rewrite fmap_cons.
  destruct (decide (models.Todo.id a = models.Todo.id t)) as [Heq|Hne].
  - assert (∀ t0, t0 ∈ l → models.Todo.id t0 ≠ models.Todo.id t) as Hrest.
    { intros t0 Ht0 Hid. apply Ha. rewrite Heq, <- Hid. by apply list_elem_of_fmap_2. }
    rewrite rewrite_other_ids by done.
    rewrite (filter_cons _ row l), (filter_cons _ row []), filter_nil.
    rewrite (filter_nil_not_Exists _ l); [done|].
    intros Hex. apply Exists_exists in Hex as (t0 & Ht0 & Hid). by apply (Hrest t0).
  - rewrite filter_cons_False by done. apply IH; [done|].
    apply elem_of_cons in Hin as [->|Hin]; [done|done].
Qed.

Ltac refold_fmap :=
  repeat match goal with
         | |- context [list_fmap ?A ?B ?f ?l] => change (list_fmap A B f l) with (f <$> l)
         end.

(** X8: an update that returns rewrites the one row it was asked to and
    nothing else.  The row it returns is what the scoped lookup then
    finds; unless nothing was sent to the store, its [updated_at] is the
    clock; the ids of the table, the users, the categories and the graph
    are as before, so a changed title is not carried to the Todo node;
    every lookup under another id and every listing of another user
    answers what it answered before. *)
Theorem update_todo_frame (w w' : World) (todo_id user_id : Z) (t t' : models.Todo.t)
    (u : schemas.TodoUpdate.t) :
  todos_pk (db w) →
  crud.get_todo todo_id user_id w = (Returned (Some t), w) →
  crud.update_todo todo_id u user_id w = (Returned (Some t'), w') →
  (t' = t ∧ w' = w ∨ models.Todo.updated_at t' = Some (clock (db w))) ∧
  crud.get_todo todo_id user_id w' = (Returned (Some t'), w') ∧
  models.Todo.id <$> todos (db w') = models.Todo.id <$> todos (db w) ∧
  users (db w') = users (db w) ∧ categories (db w') = categories (db w) ∧
  neo4j w' = neo4j w ∧
  (∀ k v, k ≠ todo_id → (crud.get_todo k v w').1 = (crud.get_todo k v w).1) ∧
  (∀ v skip limit, v ≠ user_id →
     (crud.get_todos v skip limit w').1 = (crud.get_todos v skip limit w).1).
Proof.
  intros Hpk Hget Hupd.
  destruct (get_todo_Some _ _ _ _ _ Hget) as (_ & Hin & Hid & Huid). subst todo_id.
  rewrite (update_todo_found _ _ _ _ u Hget) in Hupd.
  destruct (foldl_setattr t u) as (_&_&_&_&_& Hnid & Hnuid & _).
  set (new := foldl crud.setattr t _) in *.
  unfold fmap, M_fmap, crud.flush_todo in Hupd.
  destruct (decide (new = t)) as [Hsame|Hdiff].
  { injection Hupd as <- <-. split_and!; try done. by left. }
  destruct (decide (models.Todo.title new = None)); [discriminate|].
  injection Hupd as <- <-. simpl.
  remember (crud.touch (clock (db w)) new) as row eqn:Hrow.
  assert (models.Todo.id row = models.Todo.id t) as Hrid by (by rewrite Hrow).
  assert (models.Todo.user_id row = user_id) as Hruid by (rewrite Hrow; simpl; congruence).
  split_and!; try done.
  - right. by rewrite ?Hrow.
  - unfold crud.get_todo. unfold_M. simpl.
    rewrite (list_filter_iff _ (λ t0, models.Todo.user_id t0 = user_id ∧
                                      models.Todo.id t0 = models.Todo.id t))
      by (intros t0; split; intros [? ?]; done).
    rewrite <- (list_filter_filter (λ t0, models.Todo.user_id t0 = user_id)
                  (λ t0, models.Todo.id t0 = models.Todo.id t)).
    destruct Hpk as [Hnd _]. refold_fmap. rewrite (filter_rewritten t row _ Hnd Hin).
    rewrite (filter_cons_True _ row []) by done. rewrite filter_nil.
    by rewrite filter_cons_True.
  - rewrite <- list_fmap_compose. apply list_fmap_ext. intros i t0 _. simpl.
    case_decide; [congruence|done].
  - intros k v Hk. unfold crud.get_todo. unfold_M. simpl. refold_fmap.
    rewrite filter_after_rewrite; [reflexivity| |].
    + intros [? _]. congruence.
    + intros t0 _ [? _]. congruence.
  - intros v skip limit Hv. unfold crud.get_todos. unfold_M. simpl. refold_fmap.
    rewrite filter_after_rewrite; [by case_decide| |].
    + congruence.
    + intros t0 Ht0 Hown Heq. apply Hv. rewrite <- Hown, <- Huid. f_equal.
      by eapply todos_pk_same_id.
Qed.

Lemma update_todo_frame_witness :
  crud.get_todo 2 2 (crud.update_todo 2 example.all_fields 2 example.two_todos).2
  = (Returned (Some (models.Todo.mk 2 (Some "Ship 2.0") None (Some true) (Some "low") 0
                       (Some 0) (Some 2000) 2)),
     (crud.update_todo 2 example.all_fields 2 example.two_todos).2) ∧
  neo4j (crud.update_todo 2 example.all_fields 2 example.two_todos).2
  = neo4j example.two_todos.
Proof.
  destruct (update_todo_frame example.two_todos
              (crud.update_todo 2 example.all_fields 2 example.two_todos).2 2 2
              example.bob_todo
              (models.Todo.mk 2 (Some "Ship 2.0") None (Some true) (Some "low") 0
                 (Some 0) (Some 2000) 2)
              example.all_fields) as (_ & Hget & _ & _ & _ & Hgraph & _).
  - apply (bool_decide_unpack _). vm_compute. exact I.
  - vm_compute. reflexivity.
  - vm_compute. reflexivity.
  - split; [exact Hget|exact Hgraph].
Defined.

(** X9: an update whose body sets no field is a read: it answers what the
    scoped lookup answers, the todo as stored or [None], and leaves the
    world, [updated_at] included, as it was. *)
Theorem update_todo_empty_body (w : World) (todo_id user_id : Z) :
  crud.update_todo todo_id (schemas.TodoUpdate.mk None None None None None) user_id w
  = crud.get_todo todo_id user_id w.
Proof.
  unfold crud.update_todo, mbind, M_bind.
  destruct (crud.get_todo todo_id user_id w) as [[[t|]|e] w1] eqn:Hget; try done.
  apply get_todo_Some in Hget as (-> & _). simpl.
  unfold fmap, M_fmap, crud.flush_todo. by rewrite decide_True.
Qed.

(** ** Categories *)

(** X10: a category that [create_category] returned has the next id of
    its sequence, the name and colour of the request, the caller as owner
    and the clock as [created_at]; the caller's listing is the listing
    from before with the new category at its end, and the listing of
    anybody else is as before.  A listing only reads and only shows
    categories of the asking user. *)
Theorem create_category_then_list (w w' : World) (category : schemas.CategoryCreate.t)
    (user_id : Z) (c : models.Category.t) :
  crud.create_category category user_id w = (Returned c, w') →
  c = models.Category.mk (categories_id_seq (db w)) (schemas.CategoryCreate.name category)
        (Some (schemas.CategoryCreate.color category)) user_id (clock (db w)) ∧
  (∃ l, crud.get_categories user_id w = (Returned l, w) ∧
        crud.get_categories user_id w' = (Returned (l ++ [c]), w')) ∧
  (∀ v, v ≠ user_id → (crud.get_categories v w').1 = (crud.get_categories v w).1) ∧
  (∀ v, ∃ l, crud.get_categories v w' = (Returned l, w') ∧
             Forall (λ c0, models.Category.user_id c0 = v) l).
Proof.
  unfold crud.create_category, crud.insert_category, neo4j_client.create_category_node.
  unfold_M. case_decide as Hex; [|done]. simpl.
  destruct (neo4j_up w) eqn:Hup; [|done]. intros Heq. injection Heq as <- <-.
  split; [done|]. unfold crud.get_categories, crud.query. simpl. split_and!.
  - eexists. split; [reflexivity|]. rewrite filter_app. by rewrite filter_cons_True.
  - intros v Hv. rewrite filter_app. rewrite filter_cons_False by (simpl; congruence).
    by rewrite filter_nil, app_nil_r.
  - intros v. eexists. split; [reflexivity|]. apply Forall_forall. intros c0 Hc0.
    by apply list_elem_of_filter in Hc0 as [? _].
Qed.

Lemma create_category_then_list_witness :
  ∃ l, crud.get_categories 1 example.two_todos = (Returned l, example.two_todos) ∧
       crud.get_categories 1 (crud.create_category example.work 1 example.two_todos).2
       = (Returned (l ++ [models.Category.mk 1 "Work" (Some "#3B82F6") 1 0]),
          (crud.create_category example.work 1 example.two_todos).2).
Proof.
  destruct (create_category_then_list example.two_todos
              (crud.create_category example.work 1 example.two_todos).2
              example.work 1 (models.Category.mk 1 "Work" (Some "#3B82F6") 1 0))
    as (_ & Hlist & _).
  - vm_compute. reflexivity.
  - exact Hlist.
Defined.

(** ** The statements that mirror an entity with its owner *)

Lemma create_todo_node_shape todo_id title user_id g :
  cypher.create_todo_node todo_id title user_id g
  = merge_owned graph.Todo "title" graph.OWNS todo_id (graph.param title) user_id g.
Proof. reflexivity. Qed.

Lemma create_category_node_shape category_id name user_id g :
  cypher.create_category_node category_id name user_id g
  = merge_owned graph.Category "name" graph.CREATED category_id
      (Some (graph.VStr name)) user_id g.
Proof. reflexivity. Qed.

Lemma shape_set_prop x key v g : shape (graph.set_prop x key v g) = shape g.
Proof.
  unfold shape, graph.set_prop. simpl. rewrite <- list_fmap_compose.
  apply list_fmap_ext. intros i n _. simpl. by case_decide.
Qed.

Lemma nid_match_nodes_set_key l k x key v g :
  key ≠ "id" →
  graph.nid <$> graph.match_nodes l k (graph.set_prop x key v g)
  = graph.nid <$> graph.match_nodes l k g.
Proof.
  intros Hkey. rewrite match_nodes_set_prop by done. rewrite <- list_fmap_compose.
  apply list_fmap_ext. intros i n _. simpl. by case_decide.
Qed.

(** SET x.key over rows: relationships, identities, labels and keys stay;
    every node bound to a row has the value. *)
Lemma foldl_set_key key v xs : key ≠ "id" → ∀ g (S : nat → Prop),
  (∀ n, n ∈ graph.nodes g → S (graph.nid n) → graph.props n !! key = Some v) →
  let g2 := foldl (λ g x, graph.set_prop (graph.nid x) key (Some v) g) g xs in
  graph.rels g2 = graph.rels g ∧ graph.next_nid g2 = graph.next_nid g ∧
  shape g2 = shape g ∧
  (∀ l k, graph.nid <$> graph.match_nodes l k g2 = graph.nid <$> graph.match_nodes l k g) ∧
  (∀ n, n ∈ graph.nodes g2 → S (graph.nid n) ∨ graph.nid n ∈ graph.nid <$> xs →
        graph.props n !! key = Some v).
Proof.
  intros Hkey. induction xs as [|x xs IH]; intros g S HS; simpl.
  - split_and!; try done. intros n Hn [?|Hin]; [by apply HS|].
    by apply elem_of_nil in Hin.
  - destruct (IH (graph.set_prop (graph.nid x) key (Some v) g)
                (λ y, S y ∨ y = graph.nid x)) as (Hrels & Hnext & Hshape & Hnids & Hval).
    { intros n Hn Hx. unfold graph.set_prop in Hn. simpl in Hn.
      apply list_elem_of_fmap in Hn as (n0 & -> & Hn0).
      case_decide as Hd; simpl.
      - by rewrite lookup_insert_eq.
      - destruct Hx as [?|?]; [by apply HS|done]. }
    split_and!.
    + by rewrite Hrels.
    + by rewrite Hnext.
    + by rewrite Hshape, shape_set_prop.
    + intros l k. by rewrite Hnids, nid_match_nodes_set_key.
    + intros n Hn Hx. apply Hval; [done|].
      destruct Hx as [?|Hx]; [by left; left|].
      apply elem_of_cons in Hx as [?|?]; [by left; right|by right].
Qed.

(** What the shared statement does to any graph. *)
Lemma merge_owned_spec l key ty k v user_id g :
  key ≠ "id" → l ≠ graph.User →
  let g' := merge_owned l key ty k (Some v) user_id g in
  graph.match_nodes l k g' ≠ [] ∧
  (∀ n, n ∈ graph.match_nodes l k g' → graph.props n !! key = Some v) ∧
  (∀ n u, n ∈ graph.match_nodes l k g' → u ∈ graph.match_nodes graph.User user_id g' →
          graph.mkRel (graph.nid u) ty (graph.nid n) ∈ graph.rels g') ∧
  (graph.match_nodes graph.User user_id g = [] → graph.rels g' = graph.rels g) ∧
  graph.nid <$> graph.match_nodes graph.User user_id g'
    = graph.nid <$> graph.match_nodes graph.User user_id g ∧
  (∀ r, r ∈ graph.rels g' →
        r ∈ graph.rels g ∨
        ∃ n u, n ∈ graph.match_nodes l k g' ∧ u ∈ graph.match_nodes graph.User user_id g' ∧
               r = graph.mkRel (graph.nid u) ty (graph.nid n)) ∧
  (∀ n, n ∈ graph.nodes g' →
        graph.nid n ∈ graph.nid <$> graph.match_nodes l k g' → graph.props n !! key = Some v).
Proof.
  intros Hkey Hl. unfold merge_owned.
  pose proof (merge_node_spec l k g) as Hmerge.
  destruct (graph.merge_node l k g) as [g1 xs].
  destruct Hmerge as (Hxs & Hne & Hrels1 & Hother & _).
  simpl.
  destruct (foldl_set_key key v xs Hkey g1 (λ _, False))
    as (Hrels2 & _ & _ & Hnids & Hval); [done|].
  set (g2 := foldl (λ g x, graph.set_prop (graph.nid x) key (Some v) g) g1 xs) in *.
  destruct (foldl_merge_rel ty
              (x ← xs; u ← graph.match_nodes graph.User user_id g2; [(x, u)]) g2)
    as [Hnodes3 Hrels3].
  set (g3 := foldl _ g2 _) in *.
  assert (∀ l0 k0, graph.match_nodes l0 k0 g3 = graph.match_nodes l0 k0 g2) as Hm3
    by (intros; by apply match_nodes_nodes).
  assert (graph.nid <$> graph.match_nodes graph.User user_id g2
          = graph.nid <$> graph.match_nodes graph.User user_id g) as Husers.
  { rewrite Hnids, Hother; [done|]. congruence. }
  assert (graph.nid <$> graph.match_nodes l k g2 = graph.nid <$> xs) as Hbound
    by (by rewrite Hnids, Hxs).
  split_and!.
  - rewrite Hm3. intros Hnil. apply Hne.
    apply (fmap_nil_inv graph.nid). by rewrite <- Hbound, Hnil.
  - intros n Hn. rewrite Hm3 in Hn. apply Hval.
    + by apply list_elem_of_filter in Hn as [_ ?].
    + right. rewrite <- Hbound. by apply list_elem_of_fmap_2.
  - intros n u Hn Hu. rewrite Hm3 in Hn, Hu.
    assert (graph.nid n ∈ graph.nid <$> xs) as Hin
      by (rewrite <- Hbound; by apply list_elem_of_fmap_2).
    apply list_elem_of_fmap in Hin as (x & Hnid & Hx).
    apply Hrels3. right. exists x, u. split; [by apply elem_of_rows|]. congruence.
  - intros Hnone. rewrite Hnone in Husers. apply fmap_nil_inv in Husers.
    unfold g3. rewrite Husers, bind_no_rows. simpl. by rewrite Hrels2.
  - by rewrite Hm3.
  - intros r Hr. apply Hrels3 in Hr as [Hr|(x & u & Hrow & ->)].
    { left. by rewrite <- Hrels1, <- Hrels2. }
    right. apply list_elem_of_bind in Hrow as (x' & Hrow & Hx).
    apply list_elem_of_bind in Hrow as (u' & Hrow & Hu).
    apply list_elem_of_singleton in Hrow. injection Hrow as -> ->.
    assert (graph.nid x' ∈ graph.nid <$> graph.match_nodes l k g2) as Hin
      by (rewrite Hbound; by apply list_elem_of_fmap_2).
    apply list_elem_of_fmap in Hin as (n & Hnid & Hn).
    exists n, u'. rewrite !Hm3. split_and!; [done..|]. by rewrite Hnid.
  - intros n Hn Hin. rewrite Hnodes3 in Hn. rewrite Hm3, Hbound in Hin.
    apply Hval; [done|]. by right.
Qed.





(** SET u.username, u.email over the rows of the MERGE. *)
Lemma foldl_set_user username email us : ∀ g (S : nat → Prop),
  (∀ n, n ∈ graph.nodes g → S (graph.nid n) →
        graph.props n !! "username" = Some (graph.VStr username) ∧
        graph.props n !! "email" = Some (graph.VStr email)) →
  let g2 := foldl (λ g u, graph.set_prop (graph.nid u) "email" (Some (graph.VStr email))
                            (graph.set_prop (graph.nid u) "username"
                               (Some (graph.VStr username)) g)) g us in
  graph.next_nid g2 = graph.next_nid g ∧ shape g2 = shape g ∧
  (∀ l k, graph.nid <$> graph.match_nodes l k g2 = graph.nid <$> graph.match_nodes l k g) ∧
  (∀ n, n ∈ graph.nodes g2 → S (graph.nid n) ∨ graph.nid n ∈ graph.nid <$> us →
        graph.props n !! "username" = Some (graph.VStr username) ∧
        graph.props n !! "email" = Some (graph.VStr email)).
Proof.
  induction us as [|u us IH]; intros g S HS; simpl.
  - split_and!; try done. intros n Hn [?|Hin]; [by apply HS|].
    by apply elem_of_nil in Hin.
  - destruct (IH (graph.set_prop (graph.nid u) "email" (Some (graph.VStr email))
                    (graph.set_prop (graph.nid u) "username"
                       (Some (graph.VStr username)) g))
                (λ y, S y ∨ y = graph.nid u)) as (Hnext & Hshape & Hnids & Hval).
    { intros n Hn Hx. unfold graph.set_prop in Hn. simpl in Hn.
      rewrite <- list_fmap_compose in Hn.
      apply list_elem_of_fmap in Hn as (n0 & -> & Hn0). revert Hx. simpl.
      destruct (decide (graph.nid n0 = graph.nid u)) as [Hd|Hd]; simpl.
      - rewrite !decide_True by done. simpl. intros _. split.
        + rewrite lookup_insert_ne by done. apply lookup_insert_eq.
        + apply lookup_insert_eq.
      - rewrite !decide_False by done. intros [?|?]; [by apply HS|done]. }
    split_and!.
    + by rewrite Hnext.
    + by rewrite Hshape, !shape_set_prop.
    + intros l k. by rewrite Hnids, !nid_match_nodes_set_key.
    + intros n Hn Hx. apply Hval; [done|].
      destruct Hx as [?|Hx]; [by left; left|].
      apply elem_of_cons in Hx as [?|?]; [by left; right|by right].
Qed.

(** The statement of [create_user_node] on any graph. *)
Lemma create_user_node_spec user_id username email g :
  let g' := cypher.create_user_node user_id username email g in
  graph.match_nodes graph.User user_id g' ≠ [] ∧
  (∀ n, n ∈ graph.nodes g' →
        graph.nid n ∈ graph.nid <$> graph.match_nodes graph.User user_id g' →
        graph.props n !! "username" = Some (graph.VStr username) ∧
        graph.props n !! "email" = Some (graph.VStr email)) ∧
  (∀ l k, (l, k) ≠ (graph.User, user_id) →
          graph.nid <$> graph.match_nodes l k g' = graph.nid <$> graph.match_nodes l k g) ∧
  (graph.match_nodes graph.User user_id g ≠ [] →
   graph.nid <$> graph.match_nodes graph.User user_id g'
   = graph.nid <$> graph.match_nodes graph.User user_id g ∧
   length (graph.nodes g') = length (graph.nodes g)).
Proof.
  unfold cypher.create_user_node.
  pose proof (merge_node_spec graph.User user_id g) as Hmerge.
  destruct (graph.merge_node graph.User user_id g) as [g1 us].
  destruct Hmerge as (Hus & Hne & _ & Hother & Hsame).
  simpl.
  destruct (foldl_set_user username email us g1 (λ _, False))
    as (_ & Hshape & Hnids & Hval); [done|].
  set (g2 := foldl _ g1 us) in *.
  split_and!.
  - intros Hnil. apply Hne. apply (fmap_nil_inv graph.nid). by rewrite Hus, <- Hnids, Hnil.
  - intros n Hn Hin. apply Hval; [done|]. right. by rewrite Hus, <- Hnids.
  - intros l k Hlk. by rewrite Hnids, Hother.
  - intros Hsome. rewrite Hnids. rewrite (Hsame Hsome). split; [done|].
    assert (length (shape g2) = length (shape g1)) as Hlen by (by rewrite Hshape).
    unfold shape in Hlen. rewrite !length_fmap in Hlen. by rewrite Hlen, (Hsame Hsome).
Qed.

(** X13: after a registration that returned, the graph has a User node
    under the id of the new user, and every node the statement bound
    carries the username and the email of the request; the
    relationships of the graph are the ones that were there. *)
Theorem register_mirrors `{!auth.Hasher} (w w' : World) (user : schemas.UserCreate.t)
    (u : models.User.t) :
  main.register user w = (Returned u, w') →
  graph.match_nodes graph.User (models.User.id u) (neo4j w') ≠ [] ∧
  (∀ n, n ∈ graph.match_nodes graph.User (models.User.id u) (neo4j w') →
        graph.props n !! "id" = Some (graph.VInt (models.User.id u)) ∧
        graph.props n !! "username" = Some (graph.VStr (schemas.UserCreate.username user)) ∧
        graph.props n !! "email" = Some (graph.VStr (schemas.UserCreate.email user))) ∧
  graph.rels (neo4j w') = graph.rels (neo4j w).
Proof.
  intros Hreg.
  destruct (register_cases user w) as [[_ Hc]|[[_ Hc]|(_ & _ & Hc)]];
    [rewrite Hc in Hreg; discriminate..|].
  cbv zeta in Hc. rewrite Hc in Hreg.
  destruct (neo4j_up w); [|discriminate]. injection Hreg as <- <-. simpl.
  destruct (create_user_node_spec (users_id_seq (db w)) (schemas.UserCreate.username user)
              (schemas.UserCreate.email user) (neo4j w)) as (Hne & Hval & _ & _).
  split_and!; [done| |apply create_user_node_rels].
  intros n Hn. pose proof Hn as Hn'. apply list_elem_of_filter in Hn' as [[_ Hid] Hin].
  split; [done|]. apply Hval; [done|]. by apply list_elem_of_fmap_2.
Qed.

Lemma register_mirrors_witness :
  graph.match_nodes graph.User 1
    (neo4j (@main.register example.hasher example.alice (initial 0 true)).2) ≠ [] ∧
  graph.rels (neo4j (@main.register example.hasher example.alice (initial 0 true)).2) = [].
Proof.
  destruct (@register_mirrors example.hasher (initial 0 true)
              (@main.register example.hasher example.alice (initial 0 true)).2
              example.alice example.alice_row) as (Hne & _ & Hrels).
  - vm_compute. reflexivity.
  - split; [exact Hne|exact Hrels].
Defined.

(** ** Linking a todo to a category *)

(** MERGE of a relationship of type [ty] over the rows (start, end). *)
Lemma foldl_merge_rel_fwd ty rows : ∀ g,
  let g' := foldl (λ g '(a, b), graph.merge_rel (graph.nid a) ty (graph.nid b) g) g rows in
  graph.nodes g' = graph.nodes g ∧ graph.next_nid g' = graph.next_nid g ∧
  (∀ r, r ∈ graph.rels g' ↔
        r ∈ graph.rels g ∨
        ∃ a b, (a, b) ∈ rows ∧ r = graph.mkRel (graph.nid a) ty (graph.nid b)) ∧
  ((∀ a b, (a, b) ∈ rows → graph.mkRel (graph.nid a) ty (graph.nid b) ∈ graph.rels g) →
   g' = g).
Proof.
  induction rows as [|[a b] rows IH]; intros g; simpl.
  - split_and!; try done. intros r. split; [by left|]. intros [?|(a & b & Hin & _)]; [done|].
    by apply elem_of_nil in Hin.
  - destruct (IH (graph.merge_rel (graph.nid a) ty (graph.nid b) g))
      as (Hnodes & Hnext & Hrels & Hsame).
    destruct (merge_rel_spec (graph.nid a) ty (graph.nid b) g) as (Hn1 & _ & Hr1).
    split_and!.
    + by rewrite Hnodes.
    + rewrite Hnext. unfold graph.merge_rel. by case_decide.
    + intros r. rewrite Hrels, Hr1. split.
      * intros [[?| ->]|(a' & b' & Hin & ->)].
        -- by left.
        -- right. exists a, b. split; [apply elem_of_cons; by left|done].
        -- right. exists a', b'. split; [apply elem_of_cons; by right|done].
      * intros [?|(a' & b' & Hin & ->)]; [by left; left|].
        apply elem_of_cons in Hin as [Heq|Hin].
        -- injection Heq as -> ->. left. by right.
        -- right. eauto.
    + intros Hall.
      assert (graph.merge_rel (graph.nid a) ty (graph.nid b) g = g) as Hg.
      { unfold graph.merge_rel. rewrite decide_True; [done|]. apply Hall. by left. }
      rewrite Hsame; [done|]. rewrite Hg. intros a' b' Hin. apply Hall. by right.
Qed.

(** X14: [link_todo_to_category] touches no node; it adds, between every
    Todo node under the todo id and every Category node under the
    category id, the BELONGS_TO relationship that was not there yet, and
    nothing else.  When either node is missing the graph is left exactly
    as it was, without an error, and linking a second time changes
    nothing. *)
Theorem link_todo_to_category_spec (todo_id category_id : Z) (g : graph.Graph) :
  let g' := cypher.link_todo_to_category todo_id category_id g in
  graph.nodes g' = graph.nodes g ∧
  (∀ r, r ∈ graph.rels g' ↔
        r ∈ graph.rels g ∨
        ∃ t c, t ∈ graph.match_nodes graph.Todo todo_id g ∧
               c ∈ graph.match_nodes graph.Category category_id g ∧
               r = graph.mkRel (graph.nid t) graph.BELONGS_TO (graph.nid c)) ∧
  (graph.match_nodes graph.Todo todo_id g = [] ∨
   graph.match_nodes graph.Category category_id g = [] → g' = g) ∧
  cypher.link_todo_to_category todo_id category_id g' = g'.
Proof.
  unfold cypher.link_todo_to_category.
  set (rows := t ← graph.match_nodes graph.Todo todo_id g;
               c ← graph.match_nodes graph.Category category_id g; [(t, c)]).
  destruct (foldl_merge_rel_fwd graph.BELONGS_TO rows g) as (Hnodes & _ & Hrels & _).
  set (g' := foldl _ g rows) in *.
  assert (∀ t c, (t, c) ∈ rows ↔
                 t ∈ graph.match_nodes graph.Todo todo_id g ∧
                 c ∈ graph.match_nodes graph.Category category_id g) as Hrows.
  { intros t c. unfold rows. split.
    - intros Hin. apply list_elem_of_bind in Hin as (t' & Hin & Ht).
      apply list_elem_of_bind in Hin as (c' & Hin & Hc).
      apply list_elem_of_singleton in Hin. by injection Hin as -> ->.
    - intros [Ht Hc]. by apply elem_of_rows. }
  simpl. split_and!.
  - done.
  - intros r. rewrite Hrels. split.
    + intros [?|(t & c & Hin & ->)]; [by left|]. right. exists t, c.
      apply Hrows in Hin as [? ?]. done.
    + intros [?|(t & c & Ht & Hc & ->)]; [by left|]. right. exists t, c.
      split; [by apply Hrows|done].
  - intros Hnone. unfold g', rows. destruct Hnone as [-> | ->]; [done|].
    by rewrite bind_no_rows.
  - rewrite !(match_nodes_nodes _ _ g g' Hnodes). fold rows.
    destruct (foldl_merge_rel_fwd graph.BELONGS_TO rows g') as (_ & _ & _ & Hsame).
    apply Hsame. intros t c Hin. apply Hrels. right. eauto.
Qed.

(** ** The graph of a user's todos *)

(** X15: [get_user_todo_graph] only reads.  Its rows are, for every User
    node [u] under the id and every Todo node [t] that [u] owns, the
    triples (u, t, c) with [c] each Category node [t] belongs to, or the
    one triple (u, t, None) when [t] belongs to none; when the statement
    cannot be run the client raises and changes nothing. *)
Theorem get_user_todo_graph_rows (w : World) (user_id : Z) :
  (∀ u t oc,
     (u, t, oc) ∈ cypher.get_user_todo_graph user_id (neo4j w) ↔
     u ∈ graph.match_nodes graph.User user_id (neo4j w) ∧ owns (neo4j w) u t ∧
     match oc with
     | Some c => belongs_to (neo4j w) t c
     | None => ∀ c, ¬ belongs_to (neo4j w) t c
     end) ∧
  neo4j_client.get_user_todo_graph user_id w
  = if neo4j_up w then (Returned (cypher.get_user_todo_graph user_id (neo4j w)), w)
    else (Raised ServiceUnavailable, w).
Proof.
  split; [|unfold neo4j_client.get_user_todo_graph, neo4j_client.read;
           by destruct (neo4j_up w)].
  intros u t oc. unfold cypher.get_user_todo_graph.
  assert (∀ u t, u ∈ graph.match_nodes graph.User user_id (neo4j w) →
                 t ∈ graph.out_nodes u graph.OWNS graph.Todo (neo4j w) ↔
                 owns (neo4j w) u t) as Howns.
  { intros u0 t0 Hu. rewrite elem_of_out_nodes. unfold owns, related.
    apply list_elem_of_filter in Hu as [[Hl _] Hu]. tauto. }
  assert (∀ u t c, owns (neo4j w) u t →
                   c ∈ graph.out_nodes t graph.BELONGS_TO graph.Category (neo4j w) ↔
                   belongs_to (neo4j w) t c) as Hbel.
  { intros u0 t0 c0 (_ & Hl & _ & Ht & _). rewrite elem_of_out_nodes.
    unfold belongs_to, related. tauto. }
  split.
  - intros Hin. apply list_elem_of_bind in Hin as (u' & Hin & Hu).
    apply list_elem_of_bind in Hin as (t' & Hin & Ht).
    apply Howns in Ht; [|done].
    destruct (graph.out_nodes t' graph.BELONGS_TO graph.Category (neo4j w))
      as [|c cs] eqn:Hcs.
    + apply list_elem_of_singleton in Hin. injection Hin as Hu' Ht' Hoc'. subst u' t' oc.
      split_and!; [done..|]. intros c Hc. apply (Hbel u) in Hc; [|done].
      rewrite Hcs in Hc. by apply elem_of_nil in Hc.
    + apply list_elem_of_fmap in Hin as (c' & Heq & Hc'). injection Heq as Hu' Ht' Hoc'.
      subst u' t' oc.
      split_and!; [done..|]. apply (Hbel u); [done|]. by rewrite Hcs.
  - intros (Hu & Ht & Hoc).
    apply list_elem_of_bind. exists u. split; [|done].
    apply list_elem_of_bind. exists t. split; [|by apply Howns].
    destruct (graph.out_nodes t graph.BELONGS_TO graph.Category (neo4j w))
      as [|c cs] eqn:Hcs.
    + destruct oc as [c|]; [|by apply list_elem_of_singleton].
      apply (Hbel u) in Hoc; [|done]. rewrite Hcs in Hoc. by apply elem_of_nil in Hoc.
    + destruct oc as [c'|].
      * apply list_elem_of_fmap. exists c'. split; [done|]. rewrite <- Hcs.
        by apply (Hbel u).
      * exfalso. apply (Hoc c). apply (Hbel u); [done|]. rewrite Hcs.
        apply elem_of_cons. by left.
Qed.

(** ** Delivering the same entity again *)

Lemma set_node_same key v n :
  graph.props n !! key = Some v → graph.set_node key (Some v) n = n.
Proof. intros Hv. unfold graph.set_node. rewrite insert_id by done. by destruct n. Qed.

Lemma set_prop_same x key v g :
  (∀ n, n ∈ graph.nodes g → graph.nid n = x → graph.props n !! key = Some v) →
  graph.set_prop x key (Some v) g = g.
Proof.
  intros Hall. unfold graph.set_prop.
  assert ((λ n, if decide (graph.nid n = x) then graph.set_node key (Some v) n else n)
            <$> graph.nodes g = graph.nodes g) as ->; [|by destruct g].
  induction (graph.nodes g) as [|n ns IH]; [done|].
  rewrite fmap_cons, IH by (intros n0 Hn0; apply Hall; by right). f_equal.
  case_decide; [|done]. apply set_node_same, Hall; [by left|done].
Qed.

Lemma foldl_set_key_same key v (xs : list graph.Node) g :
  (∀ n, n ∈ graph.nodes g → graph.nid n ∈ graph.nid <$> xs →
        graph.props n !! key = Some v) →
  foldl (λ g x, graph.set_prop (graph.nid x) key (Some v) g) g xs = g.
Proof.
  induction xs as [|x xs IH]; intros Hall; [done|]. simpl.
  rewrite set_prop_same.
  - apply IH. intros n Hn Hin. apply Hall; [done|].
    rewrite fmap_cons. apply elem_of_cons. by right.
  - intros n Hn Hnid. apply Hall; [done|].
    rewrite fmap_cons, Hnid. apply elem_of_cons. by left.
Qed.

Lemma foldl_merge_rel_present ty rows g :
  (∀ b a, (b, a) ∈ rows →
          graph.mkRel (graph.nid a) ty (graph.nid b) ∈ graph.rels g) →
  foldl (λ g '(b, a), graph.merge_rel (graph.nid a) ty (graph.nid b) g) g rows = g.
Proof.
  induction rows as [|[b a] rows IH]; intros Hall; [done|]. simpl.
  assert (graph.merge_rel (graph.nid a) ty (graph.nid b) g = g) as ->.
  { unfold graph.merge_rel. rewrite decide_True; [done|]. apply Hall.
    apply elem_of_cons. by left. }
  apply IH. intros b' a' Hin. apply Hall. apply elem_of_cons. by right.
Qed.

Lemma merge_owned_idempotent l key ty k v user_id g :
  key ≠ "id" → l ≠ graph.User →
  merge_owned l key ty k (Some v) user_id (merge_owned l key ty k (Some v) user_id g)
  = merge_owned l key ty k (Some v) user_id g.
Proof.
  intros Hkey Hl.
  destruct (merge_owned_spec l key ty k v user_id g Hkey Hl)
    as (Hne & _ & Hrel & _ & _ & _ & Hval).
  set (g' := merge_owned l key ty k (Some v) user_id g) in *.
  unfold merge_owned at 1.
  pose proof (merge_node_spec l k g') as Hmerge.
  destruct (graph.merge_node l k g') as [g1 xs].
  destruct Hmerge as (Hxs & _ & _ & _ & Hsame). rewrite (Hsame Hne) in *. clear g1 Hsame.
  rewrite foldl_set_key_same by (intros n Hn Hin; apply Hval; [done|by rewrite <- Hxs]).
  apply foldl_merge_rel_present. intros x u Hin.
  apply list_elem_of_bind in Hin as (x' & Hin & Hx).
  apply list_elem_of_bind in Hin as (u' & Hin & Hu).
  apply list_elem_of_singleton in Hin. injection Hin as Hx' Hu'. subst x' u'.
  apply Hrel; [by rewrite <- Hxs|done].
Qed.

Lemma foldl_set_user_same username email (us : list graph.Node) g :
  (∀ n, n ∈ graph.nodes g → graph.nid n ∈ graph.nid <$> us →
        graph.props n !! "username" = Some (graph.VStr username) ∧
        graph.props n !! "email" = Some (graph.VStr email)) →
  foldl (λ g u, graph.set_prop (graph.nid u) "email" (Some (graph.VStr email))
                  (graph.set_prop (graph.nid u) "username"
                     (Some (graph.VStr username)) g)) g us = g.
Proof.
  induction us as [|u us IH]; intros Hall; [done|]. simpl.
  assert (∀ n, n ∈ graph.nodes g → graph.nid n = graph.nid u →
               graph.props n !! "username" = Some (graph.VStr username) ∧
               graph.props n !! "email" = Some (graph.VStr email)) as Hu.
  { intros n Hn Hnid. apply Hall; [done|].
    rewrite fmap_cons, Hnid. apply elem_of_cons. by left. }
  rewrite (set_prop_same _ "username") by (intros n Hn Hnid; by apply Hu).
  rewrite (set_prop_same _ "email") by (intros n Hn Hnid; by apply Hu).
  apply IH. intros n Hn Hin. apply Hall; [done|].
  rewrite fmap_cons. apply elem_of_cons. by right.
Qed.

(** X16: each of the three statements that mirror an entity is
    idempotent on every graph: running it a second time with the same
    parameters leaves the graph of the first run, node for node and
    relationship for relationship. *)
Theorem propagation_idempotent (g : graph.Graph) :
  (∀ user_id username email,
     let g' := cypher.create_user_node user_id username email g in
     cypher.create_user_node user_id username email g' = g') ∧
  (∀ todo_id title user_id,
     let g' := cypher.create_todo_node todo_id (Some title) user_id g in
     cypher.create_todo_node todo_id (Some title) user_id g' = g') ∧
  (∀ category_id name user_id,
     let g' := cypher.create_category_node category_id name user_id g in
     cypher.create_category_node category_id name user_id g' = g').
Proof.
  split_and!.
  - intros user_id username email g'.
    destruct (create_user_node_spec user_id username email g) as (Hne & Hval & _ & _).
    fold g' in Hne, Hval. unfold cypher.create_user_node at 1.
    pose proof (merge_node_spec graph.User user_id g') as Hmerge.
    destruct (graph.merge_node graph.User user_id g') as [g1 us].
    destruct Hmerge as (Hus & _ & _ & _ & Hsame). rewrite (Hsame Hne) in *.
    apply foldl_set_user_same. intros n Hn Hin. apply Hval; [done|]. by rewrite <- Hus.
  - intros todo_id title user_id g'. unfold g'. rewrite !create_todo_node_shape.
    by apply merge_owned_idempotent.
  - intros category_id name user_id g'. unfold g'. rewrite !create_category_node_shape.
    by apply merge_owned_idempotent.
Qed.

(** ** What the traversal finds *)

(** X17: the traversal misses nothing it has room for.  When the asking
    user has a todo in a category and a todo of a user with another id
    belongs to the same category node, the answer is not empty; it has
    five pairs or as many as there are rows; and when there are at most
    five rows, the pair of that todo's title and that category's name is
    in it. *)
Theorem recommendations_complete (g : graph.Graph) (user_id : Z)
    (other_todo c : graph.Node) :
  has_todo_in g user_id c →
  shared_by_other g user_id other_todo c →
  cypher.get_todo_recommendations user_id g ≠ [] ∧
  length (cypher.get_todo_recommendations user_id g)
    = (length (cypher.recommendation_rows user_id g) `min` 5)%nat ∧
  ((length (cypher.recommendation_rows user_id g) ≤ 5)%nat →
   (graph.props other_todo !! "title", graph.props c !! "name")
     ∈ cypher.get_todo_recommendations user_id g).
Proof.
  intros Hc Hshared.
  assert ((other_todo, c) ∈ cypher.recommendation_rows user_id g) as Hrow
    by (by apply elem_of_recommendation_rows).
  unfold cypher.get_todo_recommendations.
  split_and!.
  - destruct (cypher.recommendation_rows user_id g) as [|p rows]; [|done].
    by apply elem_of_nil in Hrow.
  - rewrite length_take, length_fmap. lia.
  - intros Hle. rewrite take_ge by (rewrite length_fmap; lia).
    apply list_elem_of_fmap. by exists (other_todo, c).
Qed.

Lemma recommendations_complete_witness :
  cypher.get_todo_recommendations 1 example.linked ≠ [] ∧
  length (cypher.get_todo_recommendations 1 example.linked)
    = (length (cypher.recommendation_rows 1 example.linked) `min` 5)%nat ∧
  ((length (cypher.recommendation_rows 1 example.linked) ≤ 5)%nat →
   (graph.props example.ship_node !! "title", graph.props example.work_node !! "name")
     ∈ cypher.get_todo_recommendations 1 example.linked).
Proof.
  assert ((example.ship_node, example.work_node)
            ∈ cypher.recommendation_rows 1 example.linked) as Hrow.
  { apply (bool_decide_unpack _). vm_compute. exact I. }
  apply elem_of_recommendation_rows in Hrow as [Hc Hshared].
  exact (recommendations_complete example.linked 1 example.ship_node example.work_node
           Hc Hshared).
Defined.

(** ** A deleted todo stays in the mirror *)

Lemma get_todo_after_create todo user_id w t w' :
  todos_pk (db w) →
  crud.create_todo todo user_id w = (Returned t, w') →
  crud.get_todo (models.Todo.id t) user_id w' = (Returned (Some t), w').
Proof.
  intros [_ Hlt] Hcall.
  destruct (create_todo_Returned _ _ _ _ _ Hcall) as (_ & _ & Ht & ->).
  unfold crud.get_todo. unfold_M. simpl. rewrite filter_app.
  rewrite (filter_nil_not_Exists _ (todos (db w))).
  - simpl. rewrite filter_cons_True; [done|]. by rewrite Ht.
  - intros Hex. apply Exists_exists in Hex as (t0 & Ht0 & Hk & _).
    rewrite Forall_forall in Hlt. specialize (Hlt t0 Ht0). simpl in Hlt.
    rewrite Ht in Hk. simpl in Hk. lia.
Qed.

(** X18: creating a todo and then deleting it leaves the relational store
    without the todo and the graph with it: the delete returns the todo,
    the lookup under its id then misses, and the Todo node that was merged
    for it is still in the graph with its title, since the delete runs no
    statement on the graph. *)
Theorem delete_leaves_mirror_node (w w1 : World) (todo : schemas.TodoCreate.t)
    (user_id : Z) (t : models.Todo.t) :
  todos_pk (db w) →
  crud.create_todo todo user_id w = (Returned t, w1) →
  ∃ w2,
    crud.delete_todo (models.Todo.id t) user_id w1 = (Returned (Some t), w2) ∧
    crud.get_todo (models.Todo.id t) user_id w2 = (Returned None, w2) ∧
    neo4j w2 = neo4j w1 ∧
    graph.match_nodes graph.Todo (models.Todo.id t) (neo4j w2) ≠ [] ∧
    (∀ n, n ∈ graph.match_nodes graph.Todo (models.Todo.id t) (neo4j w2) →
          graph.props n !! "title" = Some (graph.VStr (schemas.TodoCreate.title todo))).
Proof.
  intros Hpk Hcall.
  pose proof (get_todo_after_create _ _ _ _ _ Hpk Hcall) as Hget.
  destruct (create_todo_Returned _ _ _ _ _ Hcall) as (_ & _ & Ht & Hw1).
  unfold crud.delete_todo, mbind, M_bind. rewrite Hget. simpl.
  eexists. split; [reflexivity|]. simpl. split_and!.
  - apply get_todo_absent. simpl. intros t0 Ht0.
    by apply list_elem_of_filter in Ht0 as [? _].
  - done.
  - rewrite Hw1. simpl.
    assert (models.Todo.title t = Some (schemas.TodoCreate.title todo)) as ->
      by (by rewrite Ht).
    by destruct (create_todo_node_spec (models.Todo.id t) (schemas.TodoCreate.title todo)
                   user_id (neo4j w)) as (? & _).
  - rewrite Hw1. simpl.
    assert (models.Todo.title t = Some (schemas.TodoCreate.title todo)) as ->
      by (by rewrite Ht).
    by destruct (create_todo_node_spec (models.Todo.id t) (schemas.TodoCreate.title todo)
                   user_id (neo4j w)) as (_ & ? & _).
Qed.

Lemma delete_leaves_mirror_node_witness :
  ∃ w2,
    crud.delete_todo 3 1 (crud.create_todo example.write_report 1 example.two_todos).2
    = (Returned (Some (models.Todo.mk 3 (Some "Write report") None (Some false)
                         (Some "medium") 0 None None 1)), w2) ∧
    crud.get_todo 3 1 w2 = (Returned None, w2) ∧
    neo4j w2 = neo4j (crud.create_todo example.write_report 1 example.two_todos).2 ∧
    graph.match_nodes graph.Todo 3 (neo4j w2) ≠ [] ∧
    (∀ n, n ∈ graph.match_nodes graph.Todo 3 (neo4j w2) →
          graph.props n !! "title" = Some (graph.VStr "Write report")).
Proof.
  apply (delete_leaves_mirror_node example.two_todos
           (crud.create_todo example.write_report 1 example.two_todos).2
           example.write_report 1
           (models.Todo.mk 3 (Some "Write report") None (Some false)
              (Some "medium") 0 None None 1)).
  - apply (bool_decide_unpack _). vm_compute. exact I.
  - vm_compute. reflexivity.
Defined.

(** ** The shape of the mirror *)

Lemma nid_shape g : graph.nid <$> graph.nodes g = fst <$> shape g.
Proof. unfold shape. rewrite <- list_fmap_compose. by apply list_fmap_ext. Qed.

Lemma elem_of_shape g n : n ∈ graph.nodes g → (graph.nid n, graph.label n) ∈ shape g.
Proof. intros Hn. unfold shape. by apply (list_elem_of_fmap_2 (λ n, (graph.nid n, graph.label n))). Qed.

Lemma graph_ok_shape g g' :
  shape g' = shape g → graph.next_nid g' = graph.next_nid g → graph.rels g' = graph.rels g →
  graph_ok g → graph_ok g'.
Proof.
  intros Hshape Hnext Hrels (Hnd & Hlt & Hrel & Hnr). unfold graph_ok.
  rewrite Hrels, Hnext. split_and!; [| | |done].
  - by rewrite nid_shape, Hshape, <- nid_shape.
  - apply (Forall_fmap graph.nid (λ x, (x < graph.next_nid g)%nat)).
    rewrite nid_shape, Hshape, <- nid_shape. by apply Forall_fmap.
  - eapply Forall_impl; [exact Hrel|]. intros r. unfold rel_ok. by rewrite Hshape.
Qed.

Lemma graph_ok_merge_node l k g : graph_ok g → graph_ok (graph.merge_node l k g).1.
Proof.
  intros (Hnd & Hlt & Hrel & Hnr). unfold graph.merge_node.
  destruct (graph.match_nodes l k g) as [|n ns]; [|done]. simpl.
  unfold graph_ok. simpl. split_and!; [| | |done].
  - rewrite fmap_app. apply NoDup_app. split_and!; [done| |apply NoDup_singleton].
    intros x Hx Hx'. apply list_elem_of_singleton in Hx'. simpl in Hx'. subst x.
    apply list_elem_of_fmap in Hx as (n & Hnid & Hn).
    rewrite Forall_forall in Hlt. specialize (Hlt n Hn). simpl in Hlt. lia.
  - apply Forall_app. split.
    + eapply Forall_impl; [exact Hlt|]. simpl. intros; lia.
    + apply Forall_singleton. simpl. lia.
  - eapply Forall_impl; [exact Hrel|]. intros r [Hs Hd]. unfold rel_ok, shape. simpl.
    rewrite fmap_app. split; apply elem_of_app; by left.
Qed.

Lemma graph_ok_merge_rel a ty b g :
  graph_ok g → rel_ok g (graph.mkRel a ty b) → graph_ok (graph.merge_rel a ty b g).
Proof.
  intros (Hnd & Hlt & Hrel & Hnr) Hr. unfold graph.merge_rel.
  case_decide as Hin; [done|]. unfold graph_ok. simpl. split_and!; [done..| |].
  - apply Forall_app. split; [done|]. by apply Forall_singleton.
  - apply NoDup_app. split_and!; [done| |apply NoDup_singleton].
    intros r Hr1 Hr2. apply list_elem_of_singleton in Hr2. by subst r.
Qed.

Lemma rel_ok_merge_rel a ty b g r : rel_ok (graph.merge_rel a ty b g) r ↔ rel_ok g r.
Proof. unfold rel_ok, shape, graph.merge_rel. by case_decide. Qed.

Lemma graph_ok_foldl_merge_rel ty rows : ∀ g,
  graph_ok g →
  (∀ b a, (b, a) ∈ rows → rel_ok g (graph.mkRel (graph.nid a) ty (graph.nid b))) →
  graph_ok (foldl (λ g '(b, a), graph.merge_rel (graph.nid a) ty (graph.nid b) g) g rows).
Proof.
  induction rows as [|[b a] rows IH]; intros g Hg Hrows; [done|]. simpl.
  apply IH.
  - apply graph_ok_merge_rel; [done|]. apply Hrows. apply elem_of_cons. by left.
  - intros b' a' Hin. apply rel_ok_merge_rel. apply Hrows. apply elem_of_cons. by right.
Qed.

Lemma graph_ok_foldl_merge_rel_fwd ty rows : ∀ g,
  graph_ok g →
  (∀ a b, (a, b) ∈ rows → rel_ok g (graph.mkRel (graph.nid a) ty (graph.nid b))) →
  graph_ok (foldl (λ g '(a, b), graph.merge_rel (graph.nid a) ty (graph.nid b) g) g rows).
Proof.
  induction rows as [|[a b] rows IH]; intros g Hg Hrows; [done|]. simpl.
  apply IH.
  - apply graph_ok_merge_rel; [done|]. apply Hrows. apply elem_of_cons. by left.
  - intros a' b' Hin. apply rel_ok_merge_rel. apply Hrows. apply elem_of_cons. by right.
Qed.

Lemma match_nodes_shape l k g n :
  n ∈ graph.match_nodes l k g → (graph.nid n, l) ∈ shape g.
Proof.
  intros Hn. apply list_elem_of_filter in Hn as [[<- _] Hn]. by apply elem_of_shape.
Qed.

Lemma merge_owned_graph_ok l key ty k v user_id g :
  key ≠ "id" → endpoints ty = (graph.User, l) →
  graph_ok g → graph_ok (merge_owned l key ty k (Some v) user_id g).
Proof.
  intros Hkey Hty Hg. unfold merge_owned.
  pose proof (graph_ok_merge_node l k g Hg) as Hg1.
  pose proof (merge_node_spec l k g) as Hmerge.
  destruct (graph.merge_node l k g) as [g1 xs]. simpl in Hg1.
  destruct Hmerge as (Hxs & _).
  destruct (foldl_set_key key v xs Hkey g1 (λ _, False))
    as (Hrels2 & Hnext2 & Hshape2 & _); [done|].
  set (g2 := foldl (λ g x, graph.set_prop (graph.nid x) key (Some v) g) g1 xs) in *.
  apply graph_ok_foldl_merge_rel; [by apply (graph_ok_shape g1)|].
  intros x u Hin.
  apply list_elem_of_bind in Hin as (x' & Hin & Hx).
  apply list_elem_of_bind in Hin as (u' & Hin & Hu).
  apply list_elem_of_singleton in Hin. injection Hin as Hx' Hu'. subst x' u'.
  unfold rel_ok. simpl. rewrite Hty. simpl. split.
  - by eapply match_nodes_shape.
  - rewrite Hshape2. rewrite Hxs in Hx. by eapply match_nodes_shape.
Qed.

Lemma create_user_node_graph_ok user_id username email g :
  graph_ok g → graph_ok (cypher.create_user_node user_id username email g).
Proof.
  intros Hg. unfold cypher.create_user_node.
  pose proof (graph_ok_merge_node graph.User user_id g Hg) as Hg1.
  destruct (graph.merge_node graph.User user_id g) as [g1 us]. simpl in Hg1.
  destruct (foldl_set_user username email us g1 (λ _, False))
    as (Hnext & Hshape & _); [done|].
  apply (graph_ok_shape g1); [done..| |done].
  apply foldl_set_prop_rels. by intros g0 n.
Qed.

Lemma link_todo_to_category_graph_ok todo_id category_id g :
  graph_ok g → graph_ok (cypher.link_todo_to_category todo_id category_id g).
Proof.
  intros Hg. unfold cypher.link_todo_to_category.
  apply graph_ok_foldl_merge_rel_fwd; [done|].
  intros t c Hin.
  apply list_elem_of_bind in Hin as (t' & Hin & Ht).
  apply list_elem_of_bind in Hin as (c' & Hin & Hc).
  apply list_elem_of_singleton in Hin. injection Hin as Ht' Hc'. subst t' c'.
  unfold rel_ok. simpl. split; by eapply match_nodes_shape.
Qed.

(** X19: in every world the service reaches from two empty stores the
    mirror is well formed: no two nodes share an identity, every
    relationship starts and ends at a node of the graph with the labels
    of its type (OWNS from a User to a Todo, CREATED from a User to a
    Category), no relationship is there twice, and no two nodes share a
    label and id.  Linking a todo to a category keeps the first three. *)
Theorem reachable_graph_ok `{!auth.Hasher} (w : World) :
  reachable w →
  graph_ok (neo4j w) ∧ merge_key (neo4j w) ∧
  ∀ todo_id category_id,
    graph_ok (cypher.link_todo_to_category todo_id category_id (neo4j w)).
Proof.
  intros Hreach.
  assert (graph_ok (neo4j w)) as Hok.
  { destruct Hreach as (now & up & Hev).
    apply (evolves_invariant (λ w, graph_ok (neo4j w))) with (w := initial now up);
      [..|done|].
    - intros username email hashed_password w0 Hw0. unfold crud.insert_user.
      by case_decide.
    - intros title description priority due_date user_id w0 Hw0. unfold crud.insert_todo.
      by case_decide.
    - intros old new _ w0 Hw0. unfold crud.flush_todo. by repeat case_decide.
    - by intros old w0 Hw0.
    - intros name color user_id w0 Hw0. unfold crud.insert_category. by case_decide.
    - intros user_id username email w0 Hw0.
      unfold neo4j_client.create_user_node, neo4j_client.write.
      destruct (neo4j_up w0); [|done]. by apply create_user_node_graph_ok.
    - intros todo_id title user_id w0 Hw0.
      unfold neo4j_client.create_todo_node, neo4j_client.write.
      destruct (neo4j_up w0); [|done]. simpl. rewrite create_todo_node_shape.
      by apply merge_owned_graph_ok.
    - intros category_id name user_id w0 Hw0.
      unfold neo4j_client.create_category_node, neo4j_client.write.
      destruct (neo4j_up w0); [|done]. simpl. rewrite create_category_node_shape.
      by apply merge_owned_graph_ok.
    - by intros now' w0 Hw0 _.
    - by intros up' w0 Hw0.
    - unfold graph_ok. simpl. split_and!; try done; apply NoDup_nil_2. }
  split; [done|]. split; [by apply reachable_merge_key|].
  intros todo_id category_id. by apply link_todo_to_category_graph_ok.
Qed.

Lemma reachable_graph_ok_witness :
  graph_ok (neo4j example.two_todos) ∧ merge_key (neo4j example.two_todos) ∧
  ∀ todo_id category_id,
    graph_ok (cypher.link_todo_to_category todo_id category_id (neo4j example.two_todos)).
Proof.
  apply (@reachable_graph_ok example.hasher example.two_todos).
  exists 0, true. unfold example.two_todos, example.two_users.
  repeat apply evolves_serve. apply evolves_refl.
Defined.

(** ** The mirror against the relational store *)

Lemma touched_refl X g : touched X g g.
Proof. intros n Hn. exists n. split_and!; try done. by left. Qed.

Lemma touched_trans X g1 g2 g3 : touched X g1 g2 → touched X g2 g3 → touched X g1 g3.
Proof.
  intros H12 H23 n3 Hn3.
  destruct (H23 n3 Hn3) as (n2 & Hn2 & Hnid & Hl & Hid & Hor).
  destruct (H12 n2 Hn2) as (n1 & Hn1 & Hnid' & Hl' & Hid' & Hor').
  exists n1. split_and!; [done|congruence..|].
  destruct Hor as [->|HX]; [done|]. right. by rewrite <- Hnid'.
Qed.

Lemma touched_mono (X Y : nat → Prop) g g' :
  (∀ x, X x → Y x) → touched X g g' → touched Y g g'.
Proof.
  intros HXY Ht n' Hn'. destruct (Ht n' Hn') as (n & ? & ? & ? & ? & Hor).
  exists n. split_and!; try done. destruct Hor; [by left|right; by apply HXY].
Qed.

Lemma touched_set_prop x key v g :
  key ≠ "id" → touched (λ y, y = x) g (graph.set_prop x key v g).
Proof.
  intros Hkey n' Hn'. unfold graph.set_prop in Hn'. simpl in Hn'.
  apply list_elem_of_fmap in Hn' as (n & -> & Hn). exists n.
  case_decide as Hd; [|split_and!; try done; by left].
  split_and!; try done; [|by right].
  unfold graph.set_node. simpl.
  destruct v; [by rewrite lookup_insert_ne|by rewrite lookup_delete_ne].
Qed.

Lemma touched_foldl {A} (f : graph.Graph → A → graph.Graph) (at_ : A → nat) (xs : list A) :
  (∀ g x, touched (λ y, y = at_ x) g (f g x)) →
  ∀ g, touched (λ y, y ∈ at_ <$> xs) g (foldl f g xs).
Proof.
  intros Hf. induction xs as [|x xs IH]; intros g; simpl; [apply touched_refl|].
  eapply touched_trans.
  - eapply touched_mono; [|apply (Hf g x)]. intros y ->. apply elem_of_cons. by left.
  - eapply touched_mono; [|apply IH]. intros y Hy. apply elem_of_cons. by right.
Qed.

(** Under unique identities, a node is one of the nodes of a set as soon
    as it has the identity of one of them. *)
Lemma bound_node g (xs : list graph.Node) n :
  NoDup (graph.nid <$> graph.nodes g) → (∀ x, x ∈ xs → x ∈ graph.nodes g) →
  n ∈ graph.nodes g → graph.nid n ∈ graph.nid <$> xs → n ∈ xs.
Proof.
  intros Hnd Hxs Hn Hin. apply list_elem_of_fmap in Hin as (x & Hnid & Hx).
  assert (n = x) as -> by (eapply NoDup_fmap_eq; eauto). done.
Qed.

(** The nodes after the shared statement, in a well-formed graph: the
    nodes that were there, or nodes under the key with the value set. *)
Lemma merge_owned_nodes l key ty k v user_id g n' :
  key ≠ "id" → graph_ok g →
  n' ∈ graph.nodes (merge_owned l key ty k (Some v) user_id g) →
  n' ∈ graph.nodes g ∨ (graph.has_key l k n' ∧ graph.props n' !! key = Some v).
Proof.
  intros Hkey Hg. unfold merge_owned.
  pose proof (graph_ok_merge_node l k g Hg) as (Hnd1 & _).
  pose proof (merge_node_spec l k g) as Hmerge.
  assert (∀ n, n ∈ graph.nodes (graph.merge_node l k g).1 →
               n ∈ graph.nodes g ∨ n ∈ (graph.merge_node l k g).2) as Hnew.
  { intros n. unfold graph.merge_node.
    destruct (graph.match_nodes l k g) as [|m ms]; [|by left]. simpl.
    intros Hn. apply elem_of_app in Hn as [?|?]; [by left|by right]. }
  destruct (graph.merge_node l k g) as [g1 xs]. simpl in Hnd1, Hnew.
  destruct Hmerge as (Hxs & _). simpl.
  destruct (foldl_set_key key v xs Hkey g1 (λ _, False)) as (_ & _ & _ & _ & Hval); [done|].
  pose proof (touched_foldl (λ g x, graph.set_prop (graph.nid x) key (Some v) g)
                graph.nid xs (λ g x, touched_set_prop (graph.nid x) key (Some v) g Hkey) g1)
    as Htouched.
  set (g2 := foldl (λ g x, graph.set_prop (graph.nid x) key (Some v) g) g1 xs) in *.
  destruct (foldl_merge_rel ty
              (x ← xs; u ← graph.match_nodes graph.User user_id g2; [(x, u)]) g2)
    as [Hnodes3 _].
  rewrite Hnodes3. intros Hn'.
  destruct (Htouched n' Hn') as (n & Hn & Hnid & Hlab & Hid & Hor).
  assert (∀ x, x ∈ xs → x ∈ graph.nodes g1) as Hsub.
  { intros x Hx. rewrite Hxs in Hx. by apply list_elem_of_filter in Hx as [_ ?]. }
  destruct (decide (graph.nid n ∈ graph.nid <$> xs)) as [Hb|Hb].
  - right. pose proof (bound_node g1 xs n Hnd1 Hsub Hn Hb) as Hx.
    rewrite Hxs in Hx. apply list_elem_of_filter in Hx as [[Hl Hk] _].
    split; [split; congruence|]. apply Hval; [done|]. right. by rewrite Hnid.
  - destruct Hor as [->|?]; [|done].
    destruct (Hnew n Hn) as [?|Hx]; [by left|].
    exfalso. apply Hb. by apply list_elem_of_fmap_2.
Qed.

(** The nodes after [create_user_node], in a well-formed graph. *)
Lemma create_user_node_nodes user_id username email g n' :
  graph_ok g →
  n' ∈ graph.nodes (cypher.create_user_node user_id username email g) →
  n' ∈ graph.nodes g ∨
  (graph.has_key graph.User user_id n' ∧
   graph.props n' !! "username" = Some (graph.VStr username) ∧
   graph.props n' !! "email" = Some (graph.VStr email)).
Proof.
  intros Hg. unfold cypher.create_user_node.
  pose proof (graph_ok_merge_node graph.User user_id g Hg) as (Hnd1 & _).
  pose proof (merge_node_spec graph.User user_id g) as Hmerge.
  assert (∀ n, n ∈ graph.nodes (graph.merge_node graph.User user_id g).1 →
               n ∈ graph.nodes g ∨ n ∈ (graph.merge_node graph.User user_id g).2) as Hnew.
  { intros n. unfold graph.merge_node.
    destruct (graph.match_nodes graph.User user_id g) as [|m ms]; [|by left]. simpl.
    intros Hn. apply elem_of_app in Hn as [?|?]; [by left|by right]. }
  destruct (graph.merge_node graph.User user_id g) as [g1 us]. simpl in Hnd1, Hnew.
  destruct Hmerge as (Hus & _).
  destruct (foldl_set_user username email us g1 (λ _, False)) as (_ & _ & _ & Hval); [done|].
  pose proof (touched_foldl
                (λ g u, graph.set_prop (graph.nid u) "email" (Some (graph.VStr email))
                          (graph.set_prop (graph.nid u) "username"
                             (Some (graph.VStr username)) g))
                graph.nid us) as Htouched.
  specialize (Htouched
    (λ g u, touched_trans _ _ _ _
              (touched_set_prop (graph.nid u) "username" (Some (graph.VStr username)) g
                 ltac:(done))
              (touched_set_prop (graph.nid u) "email" (Some (graph.VStr email)) _
                 ltac:(done))) g1).
  set (g2 := foldl _ g1 us) in *.
  intros Hn'.
  destruct (Htouched n' Hn') as (n & Hn & Hnid & Hlab & Hid & Hor).
  assert (∀ x, x ∈ us → x ∈ graph.nodes g1) as Hsub.
  { intros x Hx. rewrite Hus in Hx. by apply list_elem_of_filter in Hx as [_ ?]. }
  destruct (decide (graph.nid n ∈ graph.nid <$> us)) as [Hb|Hb].
  - right. pose proof (bound_node g1 us n Hnd1 Hsub Hn Hb) as Hx.
    rewrite Hus in Hx. apply list_elem_of_filter in Hx as [[Hl Hk] _].
    split; [split; congruence|]. apply Hval; [done|]. right. by rewrite Hnid.
  - destruct Hor as [->|?]; [|done].
    destruct (Hnew n Hn) as [?|Hx]; [by left|].
    exfalso. apply Hb. by apply list_elem_of_fmap_2.
Qed.

Lemma node_agrees_mono d d' n :
  (∀ u, u ∈ users d → u ∈ users d') → (∀ c, c ∈ categories d → c ∈ categories d') →
  todos_id_seq d ≤ todos_id_seq d' →
  node_agrees d n → node_agrees d' n.
Proof.
  intros Hu Hc Hseq. unfold node_agrees. destruct (graph.label n).
  - intros (u & ? & ?). exists u. split; [by apply Hu|done].
  - intros (k & ? & ?). exists k. split; [done|lia].
  - intros (c & ? & ?). exists c. split; [by apply Hc|done].
Qed.

Lemma mirror_ok_same_graph w w' :
  neo4j w' = neo4j w →
  (∀ u, u ∈ users (db w) → u ∈ users (db w')) →
  (∀ c, c ∈ categories (db w) → c ∈ categories (db w')) →
  todos_id_seq (db w) ≤ todos_id_seq (db w') →
  mirror_ok w → mirror_ok w'.
Proof.
  intros Hg Hu Hc Hseq [Hok Hagree]. unfold mirror_ok. rewrite Hg. split; [done|].
  eapply Forall_impl; [exact Hagree|]. intros n. by apply node_agrees_mono.
Qed.

Lemma create_user_mirror_ok `{!auth.Hasher} user : invariant mirror_ok (crud.create_user user).
Proof.
  intros w Hw. unfold crud.create_user, crud.insert_user, neo4j_client.create_user_node.
  unfold_M. case_decide; [done|]. simpl.
  set (row := models.User.mk _ _ _ _ _ _).
  destruct (neo4j_up w) eqn:Hup; simpl.
  - destruct Hw as [Hok Hagree]. split; simpl.
    + by apply create_user_node_graph_ok.
    + apply Forall_forall. intros n' Hn'.
      apply create_user_node_nodes in Hn' as [Hn|([Hl Hid] & Hname & Hmail)]; [| |done].
      * rewrite Forall_forall in Hagree. eapply node_agrees_mono; [..|by apply Hagree]; simpl.
        -- intros u Hu. apply elem_of_app. by left.
        -- done.
        -- lia.
      * unfold node_agrees. rewrite Hl. exists row. split; [|done].
        simpl. apply elem_of_app. right. by apply list_elem_of_singleton.
  - eapply mirror_ok_same_graph; [..|exact Hw]; simpl; [done| |done|lia].
    intros u Hu. apply elem_of_app. by left.
Qed.

Lemma create_todo_mirror_ok todo user_id : invariant mirror_ok (crud.create_todo todo user_id).
Proof.
  intros w Hw. unfold crud.create_todo, crud.insert_todo, neo4j_client.create_todo_node.
  unfold_M. case_decide; [done|]. simpl.
  destruct (neo4j_up w) eqn:Hup; simpl.
  - destruct Hw as [Hok Hagree]. rewrite create_todo_node_shape. split; simpl.
    + by apply merge_owned_graph_ok.
    + apply Forall_forall. intros n' Hn'.
      apply merge_owned_nodes in Hn' as [Hn|([Hl Hid] & _)]; [| |done..].
      * rewrite Forall_forall in Hagree. eapply node_agrees_mono; [..|by apply Hagree]; simpl;
          [done..|lia].
      * unfold node_agrees. rewrite Hl. eexists. split; [exact Hid|]. simpl. lia.
  - eapply mirror_ok_same_graph; [..|exact Hw]; simpl; [done..|lia].
Qed.

Lemma create_category_mirror_ok category user_id :
  invariant mirror_ok (crud.create_category category user_id).
Proof.
  intros w Hw.
  unfold crud.create_category, crud.insert_category, neo4j_client.create_category_node.
  unfold_M. case_decide; [|done]. simpl.
  set (row := models.Category.mk _ _ _ _ _).
  destruct (neo4j_up w) eqn:Hup; simpl.
  - destruct Hw as [Hok Hagree]. rewrite create_category_node_shape. split; simpl.
    + by apply merge_owned_graph_ok.
    + apply Forall_forall. intros n' Hn'.
      apply merge_owned_nodes in Hn' as [Hn|([Hl Hid] & Hname)]; [| |done..].
      * rewrite Forall_forall in Hagree. eapply node_agrees_mono; [..|by apply Hagree]; simpl.
        -- done.
        -- intros c Hc. apply elem_of_app. by left.
        -- lia.
      * unfold node_agrees. rewrite Hl. exists row. split; [|done].
        simpl. apply elem_of_app. right. by apply list_elem_of_singleton.
  - eapply mirror_ok_same_graph; [..|exact Hw]; simpl; [done..| |lia].
    intros c Hc. apply elem_of_app. by left.
Qed.

Lemma update_todo_mirror_ok todo_id todo_update user_id :
  invariant mirror_ok (crud.update_todo todo_id todo_update user_id).
Proof.
  intros w Hw. unfold crud.update_todo, mbind, M_bind.
  destruct (crud.get_todo todo_id user_id w) as [[[t|]|e] w1] eqn:Hget; simpl;
    try (unfold crud.get_todo in Hget; unfold_M; by simplify_eq).
  apply get_todo_Some in Hget as (-> & _).
  unfold fmap, M_fmap, crud.flush_todo.
  case_decide; [done|]. case_decide; [done|]. simpl.
  eapply mirror_ok_same_graph; [..|exact Hw]; simpl; [done..|lia].
Qed.

Lemma delete_todo_mirror_ok todo_id user_id :
  invariant mirror_ok (crud.delete_todo todo_id user_id).
Proof.
  unfold crud.delete_todo, crud.get_todo. repeat invariant_step.
  intros w Hw. eapply mirror_ok_same_graph; [..|exact Hw]; simpl; [done..|lia].
Qed.

(** X20: the mirror never holds an entity the relational store does not
    know.  In every world the service reaches from two empty stores,
    every User node carries the id, username and email of a stored user,
    every Category node the id and name of a stored category, and every
    Todo node an id that the sequence of [todos] has handed out (its todo
    may have been deleted since). *)
Theorem reachable_mirror_agrees `{!auth.Hasher} (w : World) :
  reachable w → Forall (node_agrees (db w)) (graph.nodes (neo4j w)).
Proof.
  intros (now & up & Hev).
  assert (mirror_ok w) as [_ Hagree]; [|done].
  apply (evolves_keeps mirror_ok) with (w := initial now up); [..|done|].
  - apply create_user_mirror_ok.
  - apply create_todo_mirror_ok.
  - apply update_todo_mirror_ok.
  - apply delete_todo_mirror_ok.
  - apply create_category_mirror_ok.
  - intros now' w0 Hw0 _. eapply mirror_ok_same_graph; [..|exact Hw0]; simpl; [done..|lia].
  - intros up' w0 Hw0. eapply mirror_ok_same_graph; [..|exact Hw0]; simpl; [done..|lia].
  - split; simpl; [|done]. unfold graph_ok. simpl. split_and!; try done; apply NoDup_nil_2.
Qed.

Lemma reachable_mirror_agrees_witness :
  Forall (node_agrees (db example.two_todos)) (graph.nodes (neo4j example.two_todos)).
Proof.
  apply (@reachable_mirror_agrees example.hasher example.two_todos).
  exists 0, true. unfold example.two_todos, example.two_users.
  repeat apply evolves_serve. apply evolves_refl.
Defined.

(** ** Lookups of stored users *)

Lemma filter_unique_key {A B} `{!EqDecision B} (f : A → B) (l : list A) x :
  NoDup (f <$> l) → x ∈ l → filter (λ y, f y = f x) l = [x].
Proof.
  induction l as [|a l IH]; intros Hnd Hx; [by apply elem_of_nil in Hx|].
  rewrite fmap_cons in Hnd. apply NoDup_cons in Hnd as [Ha Hnd].
  rewrite filter_cons. destruct (decide (f a = f x)) as [Heq|Hne].
  - assert (a = x) as ->.
    { apply elem_of_cons in Hx as [->|Hx]; [done|].
      exfalso. apply Ha. rewrite Heq. by apply list_elem_of_fmap_2. }
    f_equal. apply filter_nil_not_Exists. intros Hex.
    apply Exists_exists in Hex as (y & Hy & Hfy). apply Ha. rewrite <- Hfy.
    by apply list_elem_of_fmap_2.
  - apply IH; [done|]. apply elem_of_cons in Hx as [->|Hx]; done.
Qed.

(** X21: under the constraints of the table [users], each of the three
    lookups is the inverse of storing: for every stored user, the lookup
    by its id, by its username and by its email answers that very row,
    and reads only. *)
Theorem stored_user_lookups (w : World) (u : models.User.t) :
  users_ok (db w) → u ∈ users (db w) →
  crud.get_user (models.User.id u) w = (Returned (Some u), w) ∧
  crud.get_user_by_username (models.User.username u) w = (Returned (Some u), w) ∧
  crud.get_user_by_email (models.User.email u) w = (Returned (Some u), w).
Proof.
  intros (Hid & _ & Hname & Hmail) Hu.
  unfold crud.get_user, crud.get_user_by_username, crud.get_user_by_email. unfold_M.
  rewrite (filter_unique_key models.User.id _ u Hid Hu).
  rewrite (filter_unique_key models.User.username _ u Hname Hu).
  by rewrite (filter_unique_key models.User.email _ u Hmail Hu).
Qed.

Lemma stored_user_lookups_witness :
  crud.get_user 2 example.two_users = (Returned (Some example.bob_row), example.two_users) ∧
  crud.get_user_by_username "bob" example.two_users
    = (Returned (Some example.bob_row), example.two_users) ∧
  crud.get_user_by_email "bob@example.com" example.two_users
    = (Returned (Some example.bob_row), example.two_users).
Proof.
  apply (stored_user_lookups example.two_users example.bob_row).
  - split_and!; apply (bool_decide_unpack _); vm_compute; exact I.
  - apply (bool_decide_unpack _). vm_compute. exact I.
Defined.

(** ** What the routes hand out *)

